(** * Volunteer events client: event list, volunteer signup, event draft

    A shallow embedding of the client-side state layer of the events
    application: the [EventsMap] screen (event list with cache fallback),
    the [EventDetails] screen (participation status and signup) and the
    [AddEventForm] screen (draft validation, image content encoding and
    event creation), followed by the properties established about them.

    React state is passed explicitly; the effects a handler performs
    (alerts, HTTP requests, navigation) are collected in a trace; the
    outcome of every awaited call is an argument of the handler. *)

From Stdlib Require Import ZArith Bool List Ascii String Lia.
From Stdlib Require Import Floats.SpecFloat.
From stdpp Require Import base option list strings gmap.

Local Open Scope string_scope.
Local Open Scope list_scope.
Local Open Scope Z_scope.

(** ** JavaScript values used by the screens *)
Module Js.

(** [!!s] for [s : string | null | undefined]: the empty string is falsy. *)
Definition truthy (s : option string) : bool :=
  match s with
  | Some (String _ _) => true
  | _ => false
  end.

(** [!!x] for an object or [null]. *)
Definition notNull {A : Type} (x : option A) : bool :=
  match x with
  | Some _ => true
  | None => false
  end.

(** [arr.includes(x)] on an array of strings. *)
Fixpoint includes (x : string) (arr : list string) : bool :=
  match arr with
  | [] => false
  | y :: rest => if String.eqb y x then true else includes x rest
  end.

(** The outcome of [await fetch(...)] as far as a caller that only looks
    at [response.ok] can tell: the promise rejects, or it resolves with a
    response whose status is in the 2xx range or not. *)
Inductive FetchOutcome : Type :=
| FetchRejects
| FetchResolves (ok : bool).

(** [Alert.alert(title, message)]. *)
Record Alert : Type := mkAlert { title : string; message : string }.

(** A statement that completes normally with a value, or throws (for an
    awaited promise: fulfils or rejects). *)
Inductive Completion (A : Type) : Type :=
| Normal (a : A)
| Throws.
Arguments Normal {A} a.
Arguments Throws {A}.

(** *** Strings *)

(** [s.includes(c)] for a one-character search string. *)
Fixpoint includesChar (c : ascii) (s : string) : bool :=
  match s with
  | EmptyString => false
  | String d rest => if Ascii.eqb d c then true else includesChar c rest
  end.

(** [s.split(sep)] where [sep] matches exactly the characters satisfying
    [isSep] (a one-character string, or a character class): the pieces
    between separators, in order; never the empty array. *)
Fixpoint split (isSep : ascii -> bool) (s : string) : list string :=
  match s with
  | EmptyString => [EmptyString]
  | String c rest =>
      if isSep c then EmptyString :: split isSep rest
      else match split isSep rest with
           | piece :: pieces => String c piece :: pieces
           | [] => [String c EmptyString]
           end
  end.

(** [arr.pop()] / [arr[arr.length - 1]]: the last element, [undefined] on
    the empty array. *)
Definition pop (arr : list string) : option string := last arr.

(** *** Numbers: IEEE 754 binary64 *)

Definition number : Type := spec_float.
Definition prec : Z := 53.
Definition emax : Z := 1024.

Definition isNaN (x : number) : bool :=
  match x with
  | S754_nan => true
  | _ => false
  end.

(** [x > 0]. *)
Definition gtZero (x : number) : bool := SFltb (S754_zero false) x.

(** [Number.isInteger(x)]: finite, with no fractional part. *)
Definition Number_isInteger (x : number) : bool :=
  match x with
  | S754_zero _ => true
  | S754_finite _ m e => (0 <=? e) || (Z.pos m mod 2 ^ (- e) =? 0)
  | S754_infinity _ | S754_nan => false
  end.

(** The number nearest to [m * 10 ^ e] (ties to even), for [0 <= m],
    with the sign [sign]. *)
Definition roundDecimal (sign : bool) (m e : Z) : number :=
  if m =? 0 then S754_zero sign
  else if 0 <=? e then
    binary_normalize prec emax (cond_Zopp sign (m * 10 ^ e)) 0 sign
  else
    let '(q, e', l) := SFdiv_core_binary prec emax m 0 (10 ^ (- e)) 0 in
    binary_round_aux prec emax sign q e' l.

Definition code (c : ascii) : Z := Z.of_N (N_of_ascii c).

(** StrWhiteSpaceChar, as far as one-byte code units go: TAB, LF, VT,
    FF, CR, SP and NBSP. *)
Definition isStrWhiteSpaceChar (c : ascii) : bool :=
  let n := code c in
  ((9 <=? n) && (n <=? 13)) || (n =? 32) || (n =? 160).

Fixpoint trimStart (s : list ascii) : list ascii :=
  match s with
  | c :: rest => if isStrWhiteSpaceChar c then trimStart rest else s
  | [] => []
  end.

Definition trim (s : list ascii) : list ascii :=
  rev (trimStart (rev (trimStart s))).

Definition digitBelow (base : Z) (c : ascii) : option Z :=
  let n := code c in
  let v := if (48 <=? n) && (n <=? 57) then n - 48
           else if (97 <=? n) && (n <=? 102) then n - 87
           else if (65 <=? n) && (n <=? 70) then n - 55
           else 16 in
  if v <? base then Some v else None.

(** Reads the longest prefix of digits of the base: its value on top of
    [acc], the number of digits read, and the rest of the input. *)
Fixpoint readDigits (base acc n : Z) (s : list ascii)
  : Z * Z * list ascii :=
  match s with
  | c :: rest =>
      match digitBelow base c with
      | Some d => readDigits base (acc * base + d) (n + 1) rest
      | None => (acc, n, s)
      end
  | [] => (acc, n, [])
  end.

Definition readSign (s : list ascii) : bool * list ascii :=
  match s with
  | "+"%char :: rest => (false, rest)
  | "-"%char :: rest => (true, rest)
  | _ => (false, s)
  end.

(** NonDecimalIntegerLiteral: [0x], [0o], [0b] and at least one digit. *)
Definition parseNonDecimal (s : list ascii) : option number :=
  match s with
  | "0"%char :: p :: rest =>
      let literal (base : Z) : option number :=
        let '(v, n, after) := readDigits base 0 0 rest in
        match after with
        | [] => if n =? 0 then Some S754_nan
                else Some (binary_normalize prec emax v 0 false)
        | _ :: _ => Some S754_nan
        end in
      let n := code p in
      if (n =? 120) || (n =? 88) then literal 16
      else if (n =? 111) || (n =? 79) then literal 8
      else if (n =? 98) || (n =? 66) then literal 2
      else None
  | _ => None
  end.

(** StrDecimalLiteral: sign, then [Infinity] or digits with an optional
    fraction and an optional exponent. *)
Definition parseDecimal (s : list ascii) : number :=
  let '(sign, r0) := readSign s in
  if String.eqb (string_of_list_ascii r0) "Infinity" then S754_infinity sign
  else
    let '(ip, ni, r1) := readDigits 10 0 0 r0 in
    let '(m, nf, r2) :=
      match r1 with
      | "."%char :: r => readDigits 10 ip 0 r
      | _ => (ip, 0, r1)
      end in
    if ni + nf =? 0 then S754_nan
    else
      match r2 with
      | [] => roundDecimal sign m (- nf)
      | c :: r3 =>
          if (code c =? 101) || (code c =? 69) then
            let '(esign, r4) := readSign r3 in
            let '(ev, ne, r5) := readDigits 10 0 0 r4 in
            match r5 with
            | [] => if ne =? 0 then S754_nan
                    else roundDecimal sign m (cond_Zopp esign ev - nf)
            | _ :: _ => S754_nan
            end
          else S754_nan
      end.

(** [Number(s)] on a string (StringToNumber): surrounding white space is
    dropped, the empty string is [+0], anything outside the grammar is
    [NaN]. *)
Definition Number (s : string) : number :=
  match trim (list_ascii_of_string s) with
  | [] => S754_zero false
  | t => match parseNonDecimal t with
         | Some v => v
         | None => parseDecimal t
         end
  end.

End Js.

(** ** src/types/Event.ts *)

Record Position : Type := mkPosition {
  latitude : spec_float;
  longitude : spec_float
}.

(** [volunteersNeeded] is a head count: the number is kept as an integer. *)
Record Event : Type := mkEvent {
  id : string;
  name : string;
  description : string;
  organizerId : string;
  dateTime : string;
  imageUrl : option string;
  position : Position;
  volunteersNeeded : Z;
  volunteersIds : list string
}.

(** ** pages/EventDetails.tsx *)
Module EventDetails.
Import Js.

Definition API_BASE : string := "http://192.168.1.89:3333".

(** The component state read by the status box and by [handleVolunteer]. *)
Record State : Type := mkState {
  event : option Event;
  userId : option string
}.

Definition isVolunteered (st : State) : bool :=
  match event st with
  | None => false
  | Some e =>
      if negb (truthy (userId st)) then false
      else match userId st with
           | Some u => includes u (volunteersIds e)
           | None => false
           end
  end.

Definition isFull (st : State) : bool :=
  match event st with
  | None => false
  | Some e => volunteersNeeded e <=? Z.of_nat (length (volunteersIds e))
  end.

(** The three status boxes of the render, in the order of the
    conditional expression. *)
Inductive StatusBox : Type :=
| Volunteered
| TeamIsFull
| NeededCount (k : nat) (needed : Z).

(** The status box; [None] while the screen shows "Event not found.". *)
Definition statusBox (st : State) : option StatusBox :=
  match event st with
  | None => None
  | Some e =>
      Some (if isVolunteered st then Volunteered
            else if isFull st then TeamIsFull
            else NeededCount (length (volunteersIds e)) (volunteersNeeded e))
  end.

(** What [handleVolunteer] does besides setting state. *)
Inductive Effect : Type :=
| Patch (url : string) (body_volunteersIds : list string)
| ShowAlert (a : Alert).

Definition loginRequired : Alert :=
  mkAlert "Login required" "You must log in to volunteer.".
Definition signupSuccess : Alert :=
  mkAlert "Success" "You have volunteered for this event!".
Definition signupFailed : Alert :=
  mkAlert "Error" "Could not update volunteering status.".

(** [{ ...event, ...updated }] where [updated] has the one key
    [volunteersIds]. *)
Definition withVolunteersIds (e : Event) (ids : list string) : Event :=
  mkEvent (id e) (name e) (description e) (organizerId e) (dateTime e)
          (imageUrl e) (position e) (volunteersNeeded e) ids.

(** [handleVolunteer], given how the awaited PATCH turns out. The response
    of a PATCH that resolves is not inspected. *)
Definition handleVolunteer (patch : FetchOutcome) (st : State)
  : State * list Effect :=
  match event st with
  | None => (st, [])
  | Some e =>
      match userId st with
      | None | Some "" => (st, [ShowAlert loginRequired])
      | Some u =>
          if isVolunteered st || isFull st then (st, [])
          else
            let updated := volunteersIds e ++ [u] in
            let request := Patch (API_BASE +:+ "/events/" +:+ id e) updated in
            match patch with
            | FetchResolves _ =>
                (mkState (Some (withVolunteersIds e updated)) (userId st),
                 [request; ShowAlert signupSuccess])
            | FetchRejects =>
                (st, [request; ShowAlert signupFailed])
            end
      end
  end.

(** The ids of the event on screen ([[]] when there is none). *)
Definition shownIds (st : State) : list string :=
  match event st with
  | Some e => volunteersIds e
  | None => []
  end.

End EventDetails.

(** ** What the screens take from the platform

    The JavaScript built-ins whose text formats are not modelled, and the
    constants of [constants/Api], which the screens import. *)
Class Platform : Type := {
  (** [JSON.stringify] of an array of events. *)
  JSON_stringify : list Event -> string;
  (** [JSON.parse] of a cached array of events; [None] when it throws. *)
  JSON_parse : string -> option (list Event);
  (** [new Date(s).getTime()] in milliseconds; [None] for [NaN]. *)
  Date_getTime : string -> option Z;
  (** [d.toISOString()] of the date at the given milliseconds. *)
  Date_toISOString : Z -> string;
  (** [Number((size / 1024).toFixed(2))] for a size in bytes. *)
  sizeInKB : Z -> Js.number;
  API_BASE : string;
  EVENTS_CACHE_KEY : string
}.

(** ** pages/EventsMap.tsx *)
Module EventsMap.
Import Js.

Section WithPlatform.
Context {platform : Platform}.

(** [NetInfo.fetch()]: rejects, or a state whose [isConnected] is
    [boolean | null]. *)
Inductive NetInfoResult : Type :=
| NetInfoRejects
| NetInfoState (isConnected : option bool).

(** [response.json()] of the list endpoint: rejects, is an array of
    events, or is some other JSON value. *)
Inductive Body : Type :=
| BodyInvalid
| BodyArray (data : list Event)
| BodyOther.

(** [fetch(`${API_BASE}/events`)]. *)
Inductive Fetched : Type :=
| Rejects
| Resolves (ok : bool) (body : Body).

Inductive Effect : Type :=
| Warn
| ShowAlert (a : Alert).

(** The [events] state of the screen, the persistent store
    ([AsyncStorage], whose [getItem] and [setItem] are taken not to
    reject) and what has been shown or logged so far, oldest first. *)
Record World : Type := mkWorld {
  events : list Event;
  storage : gmap string string;
  log : list Effect
}.

Definition setEvents (l : list Event) (w : World) : World :=
  mkWorld l (storage w) (log w).
Definition setItem (k v : string) (w : World) : World :=
  mkWorld (events w) (<[k := v]> (storage w)) (log w).
Definition emit (e : Effect) (w : World) : World :=
  mkWorld (events w) (storage w) (log w ++ [e]).

Definition offlineAlert : Alert :=
  mkAlert "Offline" "No cached events available.".
Definition unableAlert : Alert :=
  mkAlert "Error" "Unable to load events.".

(** [new Date(e.dateTime).getTime() >= Date.now()]; a comparison with
    [NaN] is false. The filter runs synchronously: its readings of the
    clock are the one instant [now]. *)
Definition isFutureEvent (now : Z) (e : Event) : bool :=
  match Date_getTime (dateTime e) with
  | Some t => now <=? t
  | None => false
  end.

(** How a block of [fetchEvents] ends, with the world it leaves. *)
Inductive Outcome : Type :=
| Done (w : World)
| Thrown (w : World).

Definition worldOf (o : Outcome) : World :=
  match o with
  | Done w | Thrown w => w
  end.

(** The cache read shared by the offline branch and the handler:
    [getItem], then [setEvents(JSON.parse(cached))] or the alert. *)
Definition showCached (miss : Alert) (w : World) : Outcome :=
  let cached := storage w !! EVENTS_CACHE_KEY in
  if truthy cached then
    match cached ≫= JSON_parse with
    | Some l => Done (setEvents l w)
    | None => Thrown w
    end
  else Done (emit (ShowAlert miss) w).

(** The [try] block. *)
Definition tryBlock (netInfo : NetInfoResult) (response : Fetched)
    (now : Z) (w : World) : Outcome :=
  match netInfo with
  | NetInfoRejects => Thrown w
  | NetInfoState (Some true) =>
      match response with
      | Rejects => Thrown w
      | Resolves false _ => Thrown w
      | Resolves true BodyInvalid => Thrown w
      | Resolves true BodyOther => Thrown w
      | Resolves true (BodyArray data) =>
          let futureEvents := List.filter (isFutureEvent now) data in
          Done (setItem EVENTS_CACHE_KEY (JSON_stringify futureEvents)
                  (setEvents futureEvents w))
      end
  | NetInfoState _ => showCached offlineAlert w
  end.

(** [fetchEvents]: the [try] block, and on a throw the handler;
    [Thrown] is then the rejection of the promise [fetchEvents]
    returns. *)
Definition fetchEvents (netInfo : NetInfoResult) (response : Fetched)
    (now : Z) (w : World) : Outcome :=
  match tryBlock netInfo response now w with
  | Done w' => Done w'
  | Thrown w' => showCached unableAlert (emit Warn w')
  end.

End WithPlatform.
End EventsMap.

(** ** pages/AddEventForm.tsx *)
Module AddEventForm.
Import Js.

Section WithPlatform.
Context {platform : Platform}.

Record ImageMeta : Type := mkImageMeta {
  meta_name : string;
  sizeKB : number
}.

(** The route parameter and the component state. *)
Record State : Type := mkState {
  position : option Position;
  name : string;
  about : string;
  volNeeded : string;
  date : option Z;
  imagePreviewUri : option string;
  imageUrl : option string;
  imageMeta : option ImageMeta
}.

(** *** Validation *)

Definition isVolunteersValid (volNeeded : string) : bool :=
  let num := Number volNeeded in
  negb (isNaN num) && gtZero num && Number_isInteger num.

(** [date && date.getTime() >= Date.now()], as a truth value; [now] is
    the clock when the memo is computed. *)
Definition isDateValid (now : Z) (date : option Z) : bool :=
  match date with
  | Some t => now <=? t
  | None => false
  end.

Definition isDescriptionValid (about : string) : bool :=
  (String.length about <=? 300)%nat.

Definition allValid (now : Z) (st : State) : bool :=
  truthy (Some (name st)) && isDescriptionValid (about st)
  && isVolunteersValid (volNeeded st) && isDateValid now (date st)
  && truthy (imageUrl st) && notNull (date st).

(** *** Image picking *)

Record Asset : Type := mkAsset {
  uri : string;
  fileName : option string;
  base64 : option string
}.

Definition isSlash (c : ascii) : bool :=
  Ascii.eqb c "/" || Ascii.eqb c "\".

Definition getFileNameFromUri (uri : string) : string :=
  match pop (split isSlash uri) with
  | Some (String _ _ as last) => last
  | _ => "selected_image.jpg"
  end.

(** The content-encoding statements of [handleImagePicked]: the string
    handed to [uploadImage], or a throw when the file read rejects. *)
Definition encodeContent (readAsStringAsync : string -> Completion string)
    (asset : Asset) : Completion string :=
  let base64 :=
    match base64 asset with
    | Some s =>
        if truthy (Some s) && includesChar "," s
        then pop (split (Ascii.eqb ",") s)
        else Some s
    | None => None
    end in
  if negb (truthy base64) then readAsStringAsync (uri asset)
  else match base64 with
       | Some payload => Normal payload
       | None => readAsStringAsync (uri asset)
       end.

Definition uploadFailed : Alert :=
  mkAlert "Upload failed" "Could not upload image.".

(** [handleImagePicked]. [getInfoAsync] gives the size in bytes when the
    file information has one; [uploadImage] (services/imageApi) gives
    [res?.data?.data?.url]. *)
Definition handleImagePicked
    (getInfoAsync : string -> Completion (option Z))
    (readAsStringAsync : string -> Completion string)
    (uploadImage : string -> Completion (option string))
    (asset : Asset) (st : State) : State * list Alert :=
  let st := mkState (position st) (name st) (about st) (volNeeded st)
              (date st) (Some (uri asset)) (imageUrl st) (imageMeta st) in
  let failed :=
    (mkState (position st) (name st) (about st) (volNeeded st) (date st)
       (imagePreviewUri st) None None, [uploadFailed]) in
  match getInfoAsync (uri asset) with
  | Throws => failed
  | Normal info =>
      let sizeKB := match info with
                    | Some size => sizeInKB size
                    | None => S754_zero false
                    end in
      let name' := match fileName asset with
                   | Some n => n
                   | None => getFileNameFromUri (uri asset)
                   end in
      match encodeContent readAsStringAsync asset with
      | Throws => failed
      | Normal payload =>
          match uploadImage payload with
          | Normal (Some (String _ _ as url)) =>
              (mkState (position st) (name st) (about st) (volNeeded st)
                 (date st) (imagePreviewUri st) (Some url)
                 (Some (mkImageMeta name' sizeKB)), [])
          | _ => failed
          end
      end
  end.

(** *** Saving *)

(** The object serialised into the body of the POST. *)
Record NewEvent : Type := mkNewEvent {
  post_name : string;
  post_description : string;
  post_organizerId : string;
  post_dateTime : string;
  post_imageUrl : option string;
  post_position : option Position;
  post_volunteersNeeded : number;
  post_volunteersIds : list string
}.

Inductive Effect : Type :=
| Post (url : string) (body : NewEvent)
| ShowAlert (a : Alert)
| Navigate (screen : string).

Definition validationAlert : Alert :=
  mkAlert "Validation" "Please fill out all fields correctly before saving.".
Definition saveSuccess : Alert :=
  mkAlert "Success" "Event created successfully!".
Definition saveFailed : Alert :=
  mkAlert "Error" "Could not save event.".

(** [onSave], given the memoised [allValid] of the render ([now] is the
    clock of that memo) and how the awaited POST turns out. *)
Definition onSave (now : Z) (post : FetchOutcome) (st : State)
  : list Effect :=
  match date st with
  | Some d =>
      if negb (allValid now st) then [ShowAlert validationAlert]
      else
        let request :=
          Post (API_BASE +:+ "/events")
               (mkNewEvent (name st) (about st) "ImAdmin"
                  (Date_toISOString d) (imageUrl st) (position st)
                  (Number (volNeeded st)) []) in
        match post with
        | FetchResolves true =>
            [request; ShowAlert saveSuccess; Navigate "EventsMap"]
        | FetchResolves false | FetchRejects =>
            [request; ShowAlert saveFailed]
        end
  | None => [ShowAlert validationAlert]
  end.

End WithPlatform.
End AddEventForm.

(** ** A stand-in platform

    Timestamps are written in decimal milliseconds, the text of a snapshot
    lists the timestamps of its events, and the decoder knows the texts of
    two snapshots. The examples run on it. *)
Module Sample.
Import Js.

Definition at_ms (t : string) : Event :=
  mkEvent "e" "Park day" "" "o1" t None
          (mkPosition (S754_zero false) (S754_zero false)) 3 [].

Definition sample : Platform := {|
  JSON_stringify l := "[" +:+ String.concat "," (map dateTime l) +:+ "]";
  JSON_parse s :=
    if String.eqb s "[]" then Some []
    else if String.eqb s "[2000]" then Some [at_ms "2000"]
    else None;
  Date_getTime s :=
    match readDigits 10 0 0 (list_ascii_of_string s) with
    | (v, n, []) => if n =? 0 then None else Some v
    | _ => None
    end;
  Date_toISOString t := "1970-01-01T00:00:00.000Z";
  sizeInKB size := S754_zero false;
  API_BASE := "http://localhost:3333";
  EVENTS_CACHE_KEY := "eventsCache"
|}.

(** Two volunteers are needed and ["u1"] has signed up. *)
Definition cleanup : Event :=
  mkEvent "e1" "Beach cleanup" "Bring gloves" "o1" "2030-01-01T10:00:00.000Z"
          None (mkPosition (S754_zero false) (S754_zero false)) 2 ["u1"].

(** No connection yet one cached event. *)
Definition cachedWorld : EventsMap.World :=
  EventsMap.mkWorld [] {[ "eventsCache" := "[2000]" ]} [].

(** A draft with every field filled in, but no position in the route. *)
Definition draftWithoutPosition : AddEventForm.State :=
  AddEventForm.mkState None "Park day" "Bring gloves" "4" (Some 2000)
    (Some "file:///photos/a.jpg") (Some "https://img.example/a.jpg") None.

(** A file read that gives [content] for every locator. *)
Definition fromStorage (content : string) (uri : string) : Completion string :=
  Normal content.

(** An asset whose attached content has a comma before the one that ends
    its prefix. *)
Definition twoCommas : AddEventForm.Asset :=
  AddEventForm.mkAsset "file:///photos/a.jpg" (Some "a.jpg")
    (Some "data:image/png;note=a,b;base64,QUJD").

End Sample.

(** ** The terms of the properties *)
Module Terms.
Import Js.

(** A logged-in details screen: an event on display and a user id. *)
Definition screen (e : Event) (u : string) : EventDetails.State :=
  EventDetails.mkState (Some e) (Some u).

(** The probe reports no connection ([false] or [null]). *)
Definition disconnected (netInfo : EventsMap.NetInfoResult) : bool :=
  match netInfo with
  | EventsMap.NetInfoState (Some false) | EventsMap.NetInfoState None => true
  | EventsMap.NetInfoState (Some true) | EventsMap.NetInfoRejects => false
  end.

(** The connected path throws: the probe itself rejects, or with a
    connection the request rejects, is answered with an error status,
    or its body is not the JSON of an array. *)
Definition connectedPathThrows (netInfo : EventsMap.NetInfoResult)
    (response : EventsMap.Fetched) : bool :=
  match netInfo with
  | EventsMap.NetInfoRejects => true
  | EventsMap.NetInfoState (Some true) =>
      match response with
      | EventsMap.Resolves true (EventsMap.BodyArray _) => false
      | _ => true
      end
  | EventsMap.NetInfoState _ => false
  end.

(** [numberIs x n]: the number [x] is finite and its value is the integer
    [n]. *)
Definition numberIs (x : number) (n : Z) : Prop :=
  match x with
  | S754_zero _ => n = 0
  | S754_finite s m e =>
      if 0 <=? e then n = cond_Zopp s (Z.pos m) * 2 ^ e
      else cond_Zopp s (Z.pos m) = n * 2 ^ (- e)
  | S754_infinity _ | S754_nan => False
  end.

(** The draft [st] arriving with the route parameter [p]. *)
Definition withPosition (p : option Position) (st : AddEventForm.State)
  : AddEventForm.State :=
  AddEventForm.mkState p (AddEventForm.name st) (AddEventForm.about st)
    (AddEventForm.volNeeded st) (AddEventForm.date st)
    (AddEventForm.imagePreviewUri st) (AddEventForm.imageUrl st)
    (AddEventForm.imageMeta st).

Definition isComma : ascii -> bool := Ascii.eqb ",".

(** The content-encoding stage as the specification words it: attached
    content, when there is some, with everything up to and including its
    first comma dropped; the file read otherwise. *)
Fixpoint afterFirstComma (s : string) : option string :=
  match s with
  | EmptyString => None
  | String c rest => if Ascii.eqb c "," then Some rest else afterFirstComma rest
  end.

Definition encodeContent_firstComma
    (readAsStringAsync : string -> Completion string) (asset : AddEventForm.Asset)
  : Completion string :=
  match AddEventForm.base64 asset with
  | Some (String _ _ as s) => Normal (default s (afterFirstComma s))
  | _ => readAsStringAsync (AddEventForm.uri asset)
  end.

End Terms.

(** ** The rest of pages/EventDetails.tsx *)
Module EventDetailsScreen.
Import Js.

(** [s.trim()]. *)
Definition String_trim (s : string) : string :=
  string_of_list_ascii (trim (list_ascii_of_string s)).

(** [s.replace(/[^\d+]/g, "")]: the characters of [s] that are a decimal
    digit or a plus sign, in their order. *)
Definition isDigitOrPlus (c : ascii) : bool :=
  let n := code c in
  ((48 <=? n) && (n <=? 57)) || (n =? 43).

Fixpoint keepChars (keep : ascii -> bool) (s : string) : string :=
  match s with
  | EmptyString => EmptyString
  | String c rest =>
      if keep c then String c (keepChars keep rest) else keepChars keep rest
  end.

(** The [name] of a user: a text, or an object with optional parts. *)
Inductive UserName : Type :=
| NameText (text : string)
| NameParts (first last : option string).

(** [interface User]; a field the JSON of a user lacks is [None]. *)
Record User : Type := mkUser {
  user_id : string;
  user_email : option string;
  user_mobile : option string;
  user_name : option UserName
}.

(** [organizer?.email ?? "Unknown"]. *)
Definition emailOrUnknown (organizer : option User) : string :=
  default "Unknown" (organizer ≫= user_email).

Definition organizerName (organizer : option User) : string :=
  match organizer ≫= user_name with
  | None | Some (NameText EmptyString) => emailOrUnknown organizer
  | Some (NameText text) => text
  | Some (NameParts first last) =>
      let f := default "" first in
      let l := default "" last in
      let full := String_trim (f +:+ " " +:+ l) in
      if (String.length full =? 0)%nat then emailOrUnknown organizer else full
  end.

Definition organizerPhone (organizer : option User) : string :=
  default "" (keepChars isDigitOrPlus <$> (organizer ≫= user_mobile)).

Inductive LinkEffect : Type :=
| OpenURL (url : string)
| LinkAlert (a : Alert).

Definition phoneUnavailable : Alert :=
  mkAlert "Unavailable" "Organizer phone number not provided.".

Definition handleCall (organizer : option User) : list LinkEffect :=
  match organizerPhone organizer with
  | EmptyString => [LinkAlert phoneUnavailable]
  | phone => [OpenURL ("tel:" +:+ phone)]
  end.

Definition handleText (organizer : option User) : list LinkEffect :=
  match organizerPhone organizer with
  | EmptyString => [LinkAlert phoneUnavailable]
  | phone => [OpenURL ("sms:" +:+ phone)]
  end.

(** The action buttons of the render, for an event on display. *)
Record Buttons : Type := mkButtons {
  shareButton : bool;
  volunteerButton : bool;
  callAndTextButtons : bool
}.

Definition actionButtons (st : EventDetails.State) : Buttons :=
  mkButtons
    (negb (EventDetails.isFull st) || EventDetails.isVolunteered st)
    (negb (EventDetails.isVolunteered st) && negb (EventDetails.isFull st))
    (EventDetails.isVolunteered st).

(** *** Loading *)

(** The whole component state. *)
Record Screen : Type := mkScreen {
  event : option Event;
  organizer : option User;
  userId : option string;
  loading : bool
}.


(** The mount state: nothing loaded, the spinner showing. *)
Definition mounted : Screen := mkScreen None None None true.

(** When the effect's cleanup ran ([cancelled = true]), if it did: while
    the stored session, the event or the organizer was awaited. *)
Inductive Cancelled : Type :=
| NotCancelled
| DuringUserInfo
| DuringEvent
| DuringOrganizer.

(** The flag as read once the event has arrived, or the event request has
    failed. *)
Definition cancelledAfterEvent (c : Cancelled) : bool :=
  match c with
  | DuringUserInfo | DuringEvent => true
  | NotCancelled | DuringOrganizer => false
  end.

(** The flag as read once the organizer has arrived, or that request has
    failed. *)
Definition cancelledAfterOrganizer (c : Cancelled) : bool :=
  match c with
  | NotCancelled => false
  | DuringUserInfo | DuringEvent | DuringOrganizer => true
  end.

Definition cancelledAfterUserInfo (c : Cancelled) : bool :=
  match c with
  | DuringUserInfo => true
  | NotCancelled | DuringEvent | DuringOrganizer => false
  end.

Definition loadFailed : Alert :=
  mkAlert "Error" "Failed to load event details.".

(** [finally { if (!cancelled) setLoading(false); }]. *)
Definition finish (cancelled : bool) (sc : Screen) : Screen :=
  if cancelled then sc
  else mkScreen (event sc) (organizer sc) (userId sc) false.

(** [load]. [info] is what [AsyncStorage.getItem("userInfo")] gives;
    [parseId] is [JSON.parse(info)] followed by [parsed?.id ?? null];
    [fetchEvent] is the event request with [eventRes.json()], [None] for a
    JSON [null]; [fetchUser] is the same for the organizer, given the id.
    The result is the state and the alerts shown. *)
Definition load (info : option string)
    (parseId : string -> Completion (option string))
    (fetchEvent : Completion (option Event))
    (fetchUser : string -> Completion (option User))
    (c : Cancelled) (sc : Screen) : Screen * list Alert :=
  let afterInfo : Completion Screen :=
    match info with
    | Some (String _ _ as text) =>
        match parseId text with
        | Normal uid =>
            Normal (mkScreen (event sc) (organizer sc) uid (loading sc))
        | Throws => Throws
        end
    | Some EmptyString | None => Normal sc
    end in
  match afterInfo with
  | Throws => (finish (cancelledAfterUserInfo c) sc, [loadFailed])
  | Normal sc1 =>
      match fetchEvent with
      | Throws => (finish (cancelledAfterEvent c) sc1, [loadFailed])
      | Normal eventJson =>
          if cancelledAfterEvent c then (sc1, [])
          else
            let sc2 := mkScreen eventJson (organizer sc1) (userId sc1)
                         (loading sc1) in
            match eventJson with
            | Some e =>
                if truthy (Some (organizerId e)) then
                  match fetchUser (organizerId e) with
                  | Throws =>
                      (finish (cancelledAfterOrganizer c) sc2, [loadFailed])
                  | Normal userJson =>
                      if cancelledAfterOrganizer c then (sc2, [])
                      else
                        (finish false
                           (mkScreen (event sc2) userJson (userId sc2)
                              (loading sc2)), [])
                  end
                else (finish false sc2, [])
            | None => (finish false sc2, [])
            end
      end
  end.

End EventDetailsScreen.

(** ** The rest of pages/EventsMap.tsx *)
Module EventsMapScreen.
Import Js.




End EventsMapScreen.

(** ** pages/EventsMap.tsx, with a store that can fail

    [EventsMap.fetchEvents] takes [AsyncStorage] never to reject. Here
    each of the three calls of the store in [fetchEvents] may reject: the
    [setItem] that follows [setEvents(futureEvents)] inside the [try], the
    [getItem] of the offline branch, and the [getItem] of the handler. *)
Module EventsMapStore.
Import Js.

Section WithPlatform.
Context {platform : Platform}.

(** How the [setItem] ends: the text is written, or the promise rejects
    and leaves the store in some state [leftover]. *)
Inductive WriteOutcome : Type :=
| Written
| WriteRejects (leftover : gmap string string).

(** How the store answers during one [fetchEvents]. *)
Record StoreRun : Type := mkStoreRun {
  write : WriteOutcome;
  offlineReadRejects : bool;
  handlerReadRejects : bool
}.

Definition reliable : StoreRun := mkStoreRun Written false false.

(** [getItem], then [setEvents(JSON.parse(cached))] or the alert. *)
Definition showCached (readRejects : bool) (miss : Alert)
    (w : EventsMap.World) : EventsMap.Outcome :=
  if readRejects then EventsMap.Thrown w else EventsMap.showCached miss w.

(** The [try] block. *)
Definition tryBlock (store : StoreRun) (netInfo : EventsMap.NetInfoResult)
    (response : EventsMap.Fetched) (now : Z) (w : EventsMap.World)
  : EventsMap.Outcome :=
  match netInfo with
  | EventsMap.NetInfoRejects => EventsMap.Thrown w
  | EventsMap.NetInfoState (Some true) =>
      match response with
      | EventsMap.Rejects => EventsMap.Thrown w
      | EventsMap.Resolves false _ => EventsMap.Thrown w
      | EventsMap.Resolves true EventsMap.BodyInvalid => EventsMap.Thrown w
      | EventsMap.Resolves true EventsMap.BodyOther => EventsMap.Thrown w
      | EventsMap.Resolves true (EventsMap.BodyArray data) =>
          let futureEvents := List.filter (EventsMap.isFutureEvent now) data in
          let shown := EventsMap.setEvents futureEvents w in
          match write store with
          | Written =>
              EventsMap.Done
                (EventsMap.setItem EVENTS_CACHE_KEY
                   (JSON_stringify futureEvents) shown)
          | WriteRejects leftover =>
              EventsMap.Thrown
                (EventsMap.mkWorld (EventsMap.events shown) leftover
                   (EventsMap.log shown))
          end
      end
  | EventsMap.NetInfoState _ =>
      showCached (offlineReadRejects store) EventsMap.offlineAlert w
  end.

(** [fetchEvents]: the [try] block, and on a throw the handler, which
    starts from the world the throw left. *)
Definition fetchEvents (store : StoreRun) (netInfo : EventsMap.NetInfoResult)
    (response : EventsMap.Fetched) (now : Z) (w : EventsMap.World)
  : EventsMap.Outcome :=
  match tryBlock store netInfo response now w with
  | EventsMap.Done w' => EventsMap.Done w'
  | EventsMap.Thrown w' =>
      showCached (handlerReadRejects store) EventsMap.unableAlert
        (EventsMap.emit EventsMap.Warn w')
  end.

(** The cache key of [s] holds a text that is not empty and does not
    parse. *)
Definition unreadable (s : gmap string string) : Prop :=
  exists cached,
    s !! EVENTS_CACHE_KEY = Some cached /\ cached <> ""
    /\ JSON_parse cached = None.

(** The cache key of [s] holds no text: it is absent or empty. *)
Definition holdsNoText (s : gmap string string) : Prop :=
  s !! EVENTS_CACHE_KEY = None \/ s !! EVENTS_CACHE_KEY = Some "".

End WithPlatform.
End EventsMapStore.

(** ** pages/AddEventMap.tsx *)
Module AddEventMap.

(** The [position] state: the marker, once the map has been pressed. *)
Definition onPressMap (coordinate : Position) (position : option Position)
  : option Position :=
  Some coordinate.

(** [onNext]: the route parameters of the navigation to the form, if it
    navigates. *)
Definition onNext (position : option Position) : option Position :=
  match position with
  | None => None
  | Some p => Some p
  end.

(** The form as it mounts for route parameters: [route.params || {}]
    gives the position, every field starts empty. *)
Definition openForm (params : option Position) : AddEventForm.State :=
  AddEventForm.mkState params "" "" "" None None None None.

End AddEventMap.

(** ** Picking in pages/AddEventForm.tsx *)
Module AddEventFormPicker.
Import Js AddEventForm.

Section WithPlatform.
Context {platform : Platform}.

Definition permissionsRequired : Alert :=
  mkAlert "Permissions required"
          "Camera and photo library permissions are needed.".

(** [ensurePermissions], given the [status] of the two answers. *)
Definition ensurePermissions (cam lib : string) : bool * list Alert :=
  if negb (String.eqb cam "granted") || negb (String.eqb lib "granted")
  then (false, [permissionsRequired])
  else (true, []).

(** What a picker resolves with. *)
Record PickerResult : Type := mkPickerResult {
  canceled : bool;
  assets : option (list Asset)
}.

Inductive PickEffect : Type :=
| Launch
| PickAlert (a : Alert).

(** [pickImage] and [takePhoto]: they differ in the picker launched, whose
    result is [r]. *)
Definition pickImage (cam lib : string) (r : PickerResult)
    (getInfoAsync : string -> Completion (option Z))
    (readAsStringAsync : string -> Completion string)
    (uploadImage : string -> Completion (option string))
    (st : State) : State * list PickEffect :=
  let '(granted, alerts) := ensurePermissions cam lib in
  if negb granted then (st, map PickAlert alerts)
  else
    match (if canceled r then None else assets r) with
    | Some (asset :: _) =>
        let '(st', alerts') :=
          handleImagePicked getInfoAsync readAsStringAsync uploadImage
            asset st in
        (st', Launch :: map PickAlert alerts')
    | Some [] | None => (st, [Launch])
    end.

End WithPlatform.
End AddEventFormPicker.

(** ** More data for the examples *)
Module Fixtures.
Import Js EventDetailsScreen.

Definition ada : User :=
  mkUser "o1" (Some "ada@example.org") (Some "+1 (555) 010-9999")
         (Some (NameParts (Some " Ada") (Some "Lovelace "))).

Definition downtown : Position :=
  mkPosition (S754_finite false 4503599627370496 (-50))
             (S754_finite true 4503599627370496 (-50)).


(** An asset whose attached content is a data URI over base64 text. *)
Definition dataUri : AddEventForm.Asset :=
  AddEventForm.mkAsset "file:///photos/a.jpg" (Some "a.jpg")
    (Some "data:image/png;base64,QUJD").

End Fixtures.

(** * Properties *)

(** ** Participation status and signup *)
Module EventDetailsSpec.
Import Js EventDetails Sample Terms.

Lemma includes_elem_of (x : string) (arr : list string) :
  includes x arr = true <-> x ∈ arr.
Proof.
  induction arr as [|y rest IH]; simpl.
  - split; [discriminate | intros H; inversion H].
  - destruct (String.eqb_spec y x) as [->|Hne].
    + split; [intros _; left | reflexivity].
    + rewrite IH. split; [intros H; now right|].
      intros H. inversion H; subst; [congruence | assumption].
Qed.

Lemma includes_not_elem_of (x : string) (arr : list string) :
  includes x arr = false <-> x ∉ arr.
Proof.
  rewrite <- includes_elem_of. destruct (includes x arr); split; congruence.
Qed.

Lemma isVolunteered_screen (e : Event) (u : string) :
  u <> "" -> isVolunteered (screen e u) = includes u (volunteersIds e).
Proof. destruct u; [congruence | reflexivity]. Qed.

Lemma isFull_spec (e : Event) (uid : option string) :
  isFull (mkState (Some e) uid) = true
  <-> Z.of_nat (length (volunteersIds e)) >= volunteersNeeded e.
Proof. unfold isFull; simpl. rewrite Z.leb_le. lia. Qed.

(** Without a user id nothing is "volunteered": the box goes by the
    count alone. *)
Lemma statusBox_logged_out (e : Event) (uid : option string) :
  truthy uid = false ->
  statusBox (mkState (Some e) uid)
  = Some (if isFull (mkState (Some e) uid) then TeamIsFull
          else NeededCount (length (volunteersIds e)) (volunteersNeeded e)).
Proof.
  intros H. unfold statusBox, isVolunteered; simpl. now rewrite H.
Qed.

(** C5. For an event [e] on display and a user id [u] (user ids are not
    empty: an empty or null id is how the screen knows nobody is logged
    in), the status box is determined in priority order: "Volunteered"
    when [u] is among the volunteers, whatever the count; otherwise
    "Team is full" when the number of volunteers has reached
    [volunteersNeeded]; otherwise the count "k of needed". The three boxes
    are the constructors of one value, so exactly one applies, and a
    volunteered user never sees "full" or the count. *)
Theorem statusBox_priority (e : Event) (u : string) :
  u <> "" ->
  let k := length (volunteersIds e) in
  let needed := volunteersNeeded e in
  (u ∈ volunteersIds e -> statusBox (screen e u) = Some Volunteered)
  /\ (u ∉ volunteersIds e -> Z.of_nat k >= needed ->
      statusBox (screen e u) = Some TeamIsFull)
  /\ (u ∉ volunteersIds e -> Z.of_nat k < needed ->
      statusBox (screen e u) = Some (NeededCount k needed))
  /\ (isVolunteered (screen e u) = true ->
      statusBox (screen e u) <> Some TeamIsFull
      /\ forall k' n', statusBox (screen e u) <> Some (NeededCount k' n')).
Proof.
  intros Hu k needed. unfold statusBox. cbn [event screen].
  split; [|split; [|split]].
  - intros Hin. rewrite isVolunteered_screen by assumption.
    apply includes_elem_of in Hin. now rewrite Hin.
  - intros Hout Hfull. rewrite isVolunteered_screen by assumption.
    apply includes_not_elem_of in Hout. rewrite Hout.
    apply (isFull_spec e (Some u)) in Hfull. unfold screen. now rewrite Hfull.
  - intros Hout Hopen. rewrite isVolunteered_screen by assumption.
    apply includes_not_elem_of in Hout. rewrite Hout.
    destruct (isFull (screen e u)) eqn:Hfull; [|reflexivity].
    apply isFull_spec in Hfull. subst k needed. lia.
  - intros Hvol. rewrite Hvol. split; [discriminate|].
    intros k' n'. discriminate.
Qed.

Lemma statusBox_priority_witness :
  statusBox (screen cleanup "u1") = Some Volunteered.
Proof.
  apply (statusBox_priority cleanup "u1"); [discriminate|].
  apply includes_elem_of. reflexivity.
Defined.

(** *** Signup *)

Lemma includes_snoc (u : string) (ids : list string) :
  includes u (ids ++ [u]) = true.
Proof. apply includes_elem_of, elem_of_app. right. constructor. Qed.

(** The guard of [handleVolunteer]: nothing is sent, shown or changed. *)
Lemma handleVolunteer_guarded (p : FetchOutcome) (e : Event) (u : string) :
  u <> "" ->
  isVolunteered (screen e u) || isFull (screen e u) = true ->
  handleVolunteer p (screen e u) = (screen e u, []).
Proof.
  intros Hu Hg. unfold handleVolunteer. cbn [event userId screen].
  destruct u; [congruence|]. now rewrite Hg.
Qed.

(** Past the guard the PATCH carrying the extended list is sent. *)
Lemma handleVolunteer_open (p : FetchOutcome) (e : Event) (u : string) :
  u <> "" ->
  isVolunteered (screen e u) || isFull (screen e u) = false ->
  let ids' := volunteersIds e ++ [u] in
  let request := Patch (EventDetails.API_BASE +:+ "/events/" +:+ id e) ids' in
  handleVolunteer p (screen e u)
  = match p with
    | FetchResolves _ =>
        (screen (withVolunteersIds e ids') u, [request; ShowAlert signupSuccess])
    | FetchRejects => (screen e u, [request; ShowAlert signupFailed])
    end.
Proof.
  intros Hu Hg. unfold handleVolunteer. cbn [event userId screen].
  destruct u; [congruence|]. rewrite Hg. now destruct p.
Qed.

(** Nobody logged in, or nothing on display: the state stays as it is. *)
Lemma handleVolunteer_state_logged_out (p : FetchOutcome) (st : State) :
  event st = None \/ truthy (userId st) = false ->
  fst (handleVolunteer p st) = st.
Proof.
  unfold handleVolunteer. destruct (event st) as [e|]; [|reflexivity].
  intros [H|H]; [discriminate|].
  destruct (userId st) as [[|c r]|]; try reflexivity. discriminate.
Qed.

(** C6. For an event [e] on display and a user id [u] (not empty, see
    C5): when [u] is already a volunteer or the team is full,
    [handleVolunteer] changes nothing, sends nothing and shows no alert;
    and a second call that starts from the state the first one left
    leaves the volunteers as the first call left them. The outcomes of the
    two PATCH requests are arbitrary, except that a first request that was
    rejected (the signup failed and nothing was recorded) is not followed
    by an accepted one, which is a new signup and not a repetition. *)
Theorem handleVolunteer_idempotent (e : Event) (u : string)
    (p1 p2 : FetchOutcome) :
  u <> "" ->
  (p1 = FetchRejects -> p2 = FetchRejects) ->
  let once := fst (handleVolunteer p1 (screen e u)) in
  let twice := fst (handleVolunteer p2 once) in
  (u ∈ volunteersIds e
   \/ Z.of_nat (length (volunteersIds e)) >= volunteersNeeded e ->
   handleVolunteer p1 (screen e u) = (screen e u, []))
  /\ shownIds twice = shownIds once.
Proof.
  intros Hu Hp once twice. split.
  - intros Hg. apply handleVolunteer_guarded; [assumption|].
    apply orb_true_iff. destruct Hg as [Hin|Hfull].
    + left. rewrite isVolunteered_screen by assumption.
      now apply includes_elem_of.
    + right. now apply isFull_spec.
  - subst twice once.
    destruct (isVolunteered (screen e u) || isFull (screen e u)) eqn:Hg.
    + rewrite (handleVolunteer_guarded p1) by assumption. cbn [fst].
      now rewrite (handleVolunteer_guarded p2) by assumption.
    + rewrite (handleVolunteer_open p1) by assumption.
      destruct p1 as [|ok1].
      * rewrite (Hp eq_refl). cbn [fst].
        now rewrite (handleVolunteer_open FetchRejects) by assumption.
      * cbn [fst]. rewrite handleVolunteer_guarded; [reflexivity|assumption|].
        rewrite isVolunteered_screen by assumption.
        cbn [volunteersIds withVolunteersIds]. now rewrite includes_snoc.
Qed.

Lemma handleVolunteer_idempotent_witness :
  let once := fst (handleVolunteer (FetchResolves true) (screen cleanup "u2")) in
  shownIds (fst (handleVolunteer (FetchResolves true) once)) = shownIds once.
Proof.
  apply (handleVolunteer_idempotent cleanup "u2" (FetchResolves true)
           (FetchResolves true)); [discriminate | discriminate].
Defined.

(** C7. For an event [e] on display that is not full and a user id [u]
    (not empty) that is not yet a volunteer, a signup whose PATCH succeeds
    puts on display the same event with [u] appended to its volunteers,
    having sent exactly that list; the former volunteers keep their
    places and a list without duplicates stays without duplicates. *)
Theorem handleVolunteer_appends (e : Event) (u : string) :
  u <> "" ->
  u ∉ volunteersIds e ->
  Z.of_nat (length (volunteersIds e)) < volunteersNeeded e ->
  let ids' := volunteersIds e ++ [u] in
  handleVolunteer (FetchResolves true) (screen e u)
  = (screen (withVolunteersIds e ids') u,
     [Patch (EventDetails.API_BASE +:+ "/events/" +:+ id e) ids';
      ShowAlert signupSuccess])
  /\ shownIds (fst (handleVolunteer (FetchResolves true) (screen e u)))
     = volunteersIds e ++ [u]
  /\ (forall i x, volunteersIds e !! i = Some x -> ids' !! i = Some x)
  /\ (NoDup (volunteersIds e) -> NoDup ids').
Proof.
  intros Hu Hout Hopen ids'.
  assert (Hg : isVolunteered (screen e u) || isFull (screen e u) = false).
  { apply orb_false_iff. split.
    - rewrite isVolunteered_screen by assumption.
      now apply includes_not_elem_of.
    - destruct (isFull (screen e u)) eqn:Hfull; [|reflexivity].
      apply isFull_spec in Hfull. lia. }
  rewrite (handleVolunteer_open (FetchResolves true)) by assumption.
  repeat split.
  - intros i x Hi. subst ids'. now apply lookup_app_l_Some.
  - intros Hnd. subst ids'. apply NoDup_app. repeat split.
    + assumption.
    + intros x Hx Hx'. apply list_elem_of_singleton in Hx'. now subst.
    + apply NoDup_singleton.
Qed.

(** Scenario D: two volunteers are needed and ["u1"] has signed up. *)
Lemma handleVolunteer_appends_witness :
  shownIds (fst (handleVolunteer (FetchResolves true) (screen cleanup "u2")))
  = ["u1"; "u2"].
Proof.
  apply (handleVolunteer_appends cleanup "u2").
  - discriminate.
  - apply includes_not_elem_of. reflexivity.
  - reflexivity.
Defined.

Example scenario_D_status :
  let after := fst (handleVolunteer (FetchResolves true) (screen cleanup "u2")) in
  statusBox after = Some Volunteered
  /\ statusBox (mkState (event after) (Some "u3")) = Some TeamIsFull.
Proof. split; reflexivity. Qed.

(** A PATCH that rejects leaves the event as it was and reports the
    failure. *)
Lemma handleVolunteer_rejected (e : Event) (u : string) :
  u <> "" ->
  u ∉ volunteersIds e ->
  Z.of_nat (length (volunteersIds e)) < volunteersNeeded e ->
  handleVolunteer FetchRejects (screen e u)
  = (screen e u,
     [Patch (EventDetails.API_BASE +:+ "/events/" +:+ id e) (volunteersIds e ++ [u]);
      ShowAlert signupFailed]).
Proof.
  intros Hu Hout Hopen.
  apply (handleVolunteer_open FetchRejects); [assumption|].
  apply orb_false_iff. split.
  - rewrite isVolunteered_screen by assumption.
    now apply includes_not_elem_of.
  - destruct (isFull (screen e u)) eqn:Hfull; [|reflexivity].
    apply isFull_spec in Hfull. lia.
Qed.

(** C1. The PATCH of a signup is answered with an error status (for
    instance 500, or 404 for an event that no longer exists): the promise
    resolves, the response is not looked at, the event on display gets
    the new volunteer and the success alert is shown. *)
Theorem handleVolunteer_ignores_error_status :
  handleVolunteer (FetchResolves false) (screen cleanup "u2")
  = (screen (withVolunteersIds cleanup ["u1"; "u2"]) "u2",
     [Patch "http://192.168.1.89:3333/events/e1" ["u1"; "u2"];
      ShowAlert signupSuccess])
  /\ shownIds (fst (handleVolunteer (FetchResolves false) (screen cleanup "u2")))
     <> shownIds (screen cleanup "u2")
  /\ ~ In (ShowAlert signupFailed)
          (snd (handleVolunteer (FetchResolves false) (screen cleanup "u2"))).
Proof.
  repeat split.
  - discriminate.
  - cbn. intros [H|[H|[]]]; discriminate.
Qed.

End EventDetailsSpec.

(** ** The event list and its cache *)
Module EventsMapSpec.
Import Js EventsMap Sample Terms.

Section WithPlatform.
Context {platform : Platform}.

Lemma isFutureEvent_spec (now : Z) (e : Event) :
  isFutureEvent now e = true
  <-> exists t, Date_getTime (dateTime e) = Some t /\ now <= t.
Proof.
  unfold isFutureEvent. destruct (Date_getTime (dateTime e)) as [t|].
  - rewrite Z.leb_le. split; [eauto|]. now intros (t' & [= <-] & H).
  - split; [discriminate|]. now intros (t' & [=] & _).
Qed.

(** C3. Connected, the list request answered with a success status and
    an array of events: the screen shows exactly the events of the
    answer, in their order, whose [dateTime] is a date not earlier than
    the clock at the call; the store holds at the cache key the JSON
    text of exactly that list, replacing whatever was there, and is
    otherwise as before; nothing is alerted or logged. *)
Theorem fetchEvents_connected_success (data : list Event) (now : Z)
    (w : World) :
  let futureEvents := List.filter (isFutureEvent now) data in
  fetchEvents (NetInfoState (Some true)) (Resolves true (BodyArray data))
    now w
  = Done (mkWorld futureEvents
            (<[EVENTS_CACHE_KEY := JSON_stringify futureEvents]> (storage w))
            (log w))
  /\ (forall e, e ∈ futureEvents
               <-> e ∈ data
                   /\ exists t, Date_getTime (dateTime e) = Some t /\ now <= t)
  /\ futureEvents `sublist_of` data
  /\ (<[EVENTS_CACHE_KEY := JSON_stringify futureEvents]> (storage w))
       !! EVENTS_CACHE_KEY = Some (JSON_stringify futureEvents)
  /\ (forall k, k <> EVENTS_CACHE_KEY ->
        (<[EVENTS_CACHE_KEY := JSON_stringify futureEvents]> (storage w)) !! k
        = storage w !! k).
Proof.
  intros futureEvents.
  split; [reflexivity|]. split; [|split; [|split]].
  - intros e. subst futureEvents.
    rewrite !list_elem_of_In, filter_In, isFutureEvent_spec.
    reflexivity.
  - subst futureEvents. induction data as [|e data IH]; simpl.
    + constructor.
    + destruct (isFutureEvent now e); now constructor.
  - apply lookup_insert_eq.
  - intros k Hk. now apply lookup_insert_ne.
Qed.


Lemma showCached_hit (miss : Alert) (w : World) (cached : string)
    (l : list Event) :
  JSON_parse "" = None ->
  storage w !! EVENTS_CACHE_KEY = Some cached ->
  JSON_parse cached = Some l ->
  showCached miss w = Done (setEvents l w).
Proof.
  intros Hempty Hc Hl. unfold showCached. rewrite Hc.
  destruct cached as [|c rest]; [congruence|]. cbn. now rewrite Hl.
Qed.


(** How a fallback run starts: straight from the cache when
    disconnected, through the handler (after the warning) when the
    connected path throws. *)
Lemma fetchEvents_fallback_cases (netInfo : NetInfoResult)
    (response : Fetched) (now : Z) (w : World) :
  disconnected netInfo || connectedPathThrows netInfo response = true ->
  (disconnected netInfo = true
   /\ tryBlock netInfo response now w = showCached offlineAlert w)
  \/ (connectedPathThrows netInfo response = true
      /\ fetchEvents netInfo response now w
         = showCached unableAlert (emit Warn w)).
Proof.
  intros H. unfold fetchEvents.
  destruct netInfo as [|[[|]|]]; simpl in *; auto.
  destruct response as [|[|] [| |]]; simpl in *; auto; discriminate.
Qed.


(** Where a fallback run reads the cache from, and what it says when the
    cache is empty. *)
Lemma fetchEvents_fallback_hit (netInfo : NetInfoResult)
    (response : Fetched) (now : Z) (w : World) (cached : string)
    (l : list Event) :
  JSON_parse "" = None ->
  disconnected netInfo || connectedPathThrows netInfo response = true ->
  storage w !! EVENTS_CACHE_KEY = Some cached ->
  JSON_parse cached = Some l ->
  fetchEvents netInfo response now w
  = Done (setEvents l (if disconnected netInfo then w else emit Warn w)).
Proof.
  intros Hempty H Hc Hl.
  destruct (fetchEvents_fallback_cases netInfo response now w H)
    as [[Hd Htry]|[Ht ->]].
  - rewrite Hd. unfold fetchEvents. rewrite Htry.
    now rewrite (showCached_hit offlineAlert w cached l).
  - assert (Hd : disconnected netInfo = false).
    { destruct netInfo as [|[[|]|]]; simpl in *; congruence. }
    rewrite Hd.
    now rewrite (showCached_hit unableAlert (emit Warn w) cached l).
Qed.



(** Cache round trip: what a connected, successful call has written is
    what a later call without connection shows, for a codec that
    decodes its own texts. *)
Lemma cache_round_trip (data : list Event) (now now' : Z) (w : World) :
  JSON_parse "" = None ->
  (forall l, JSON_parse (JSON_stringify l) = Some l) ->
  let w1 := worldOf (fetchEvents (NetInfoState (Some true))
                       (Resolves true (BodyArray data)) now w) in
  fetchEvents (NetInfoState (Some false)) Rejects now' w1
  = Done w1
  /\ events w1 = List.filter (isFutureEvent now) data.
Proof.
  intros Hempty Hrt w1.
  split; [|reflexivity].
  etransitivity.
  - apply (fetchEvents_fallback_hit (NetInfoState (Some false)) Rejects now'
             w1 (JSON_stringify (List.filter (isFutureEvent now) data))
             (List.filter (isFutureEvent now) data) Hempty eq_refl).
    + apply lookup_insert_eq.
    + apply Hrt.
  - reflexivity.
Qed.

End WithPlatform.


(** Scenario A: two events ahead of the clock and one behind it. *)
Example scenario_A :
  @fetchEvents sample (NetInfoState (Some true))
    (Resolves true (BodyArray [at_ms "2000"; at_ms "500"; at_ms "3000"]))
    1000 cachedWorld
  = Done (mkWorld [at_ms "2000"; at_ms "3000"]
            (<["eventsCache" := "[2000,3000]"]> {[ "eventsCache" := "[2000]" ]})
            []).
Proof. reflexivity. Qed.

(** Scenario C: connected, the request rejects; the cache answers as in
    scenario B, after the warning. *)
Example scenario_C :
  @fetchEvents sample (NetInfoState (Some true)) Rejects 5000 cachedWorld
  = Done (mkWorld [at_ms "2000"] {[ "eventsCache" := "[2000]" ]} [Warn]).
Proof. reflexivity. Qed.

(** No connection and nothing cached. *)
Example scenario_offline_empty :
  @fetchEvents sample (NetInfoState (Some false)) Rejects 5000
    (mkWorld [] ∅ [])
  = Done (mkWorld [] ∅ [ShowAlert offlineAlert]).
Proof. reflexivity. Qed.

(** A cached text that does not decode: the offline branch throws, the
    handler reads the same text and throws again; the call rejects, with
    the store as it was. *)
Example scenario_corrupt_cache :
  @fetchEvents sample (NetInfoState (Some false)) Rejects 5000
    (mkWorld [] {[ "eventsCache" := "[200" ]} [])
  = Thrown (mkWorld [] {[ "eventsCache" := "[200" ]} [Warn]).
Proof. reflexivity. Qed.

End EventsMapSpec.


(** ** Draft validation, image content and saving *)
Module AddEventFormSpec.
Import Js AddEventForm Sample Terms Fixtures.

Lemma numberIs_functional (x : number) (n n' : Z) :
  numberIs x n -> numberIs x n' -> n = n'.
Proof.
  destruct x as [s|s| |s m e]; simpl; try congruence; try tauto.
  destruct (0 <=? e) eqn:He; [congruence|].
  intros H H'. rewrite H in H'. apply Z.leb_gt in He.
  apply Z.mul_reg_r in H'; [assumption|].
  apply Z.pow_nonzero; lia.
Qed.

Lemma valid_number_iff (x : number) :
  negb (isNaN x) && gtZero x && Number_isInteger x = true
  <-> exists n, 0 < n /\ numberIs x n.
Proof.
  destruct x as [s|s| |s m e]; simpl.
  - split; [destruct s; discriminate|]. intros (n & Hn & ->). lia.
  - split; [now rewrite andb_false_r|]. now intros (n & _ & []).
  - split; [discriminate|]. now intros (n & _ & []).
  - unfold gtZero; simpl. destruct (0 <=? e) eqn:He; simpl.
    + apply Z.leb_le in He. destruct s; simpl.
      * split; [discriminate|]. intros (n & Hn & ->).
        assert (0 < 2 ^ e) by (apply Z.pow_pos_nonneg; lia). nia.
      * split; [intros _|reflexivity]. exists (Z.pos m * 2 ^ e).
        split; [|reflexivity].
        assert (0 < 2 ^ e) by (apply Z.pow_pos_nonneg; lia). nia.
    + apply Z.leb_gt in He.
      assert (Hp : 0 < 2 ^ (- e)) by (apply Z.pow_pos_nonneg; lia).
      destruct s; simpl.
      * split; [discriminate|]. intros (n & Hn & Heq). nia.
      * rewrite Z.eqb_eq. split.
        -- intros Hmod. exists (Z.pos m / 2 ^ (- e)). split.
           ++ apply Z.div_str_pos. split; [assumption|].
              apply Z.mod_divide in Hmod; [|lia].
              apply Z.divide_pos_le in Hmod; lia.
           ++ rewrite Z.mul_comm. apply Z.div_exact; lia.
        -- intros (n & _ & ->). apply Z.mod_mul. lia.
Qed.

(** C9. The rule on [volunteersNeeded] accepts a text exactly when
    [Number] of it is a positive integer. So a text that is not a numeric
    literal ([NaN]), a text that parses to zero, to a negative number, or
    to a number with a fractional part (none of its readings is an
    integer), is rejected; ["0"], ["-3"] and ["2.5"] are rejected and
    ["4"] is accepted. *)
Theorem isVolunteersValid_positive_integer (s : string) :
  (isVolunteersValid s = true <-> exists n, 0 < n /\ numberIs (Number s) n)
  /\ (isNaN (Number s) = true -> isVolunteersValid s = false)
  /\ (numberIs (Number s) 0 -> isVolunteersValid s = false)
  /\ (forall n, n < 0 -> numberIs (Number s) n -> isVolunteersValid s = false)
  /\ ((forall n, ~ numberIs (Number s) n) -> isVolunteersValid s = false)
  /\ isVolunteersValid "0" = false
  /\ isVolunteersValid "-3" = false
  /\ isVolunteersValid "2.5" = false
  /\ isVolunteersValid "4" = true.
Proof.
  assert (Hiff : isVolunteersValid s = true
                 <-> exists n, 0 < n /\ numberIs (Number s) n)
    by apply valid_number_iff.
  assert (Hno : (forall n, 0 < n -> ~ numberIs (Number s) n) ->
                isVolunteersValid s = false).
  { intros H. apply not_true_is_false. intros Hv.
    apply Hiff in Hv as (n & Hn & Hx). now destruct (H n Hn). }
  split; [exact Hiff|]. split; [|split; [|split; [|split]]].
  - intros Hnan. apply Hno. intros n _ Hx.
    destruct (Number s); simpl in *; try discriminate; exact Hx.
  - intros H0. apply Hno. intros n Hn Hx.
    pose proof (numberIs_functional _ _ _ H0 Hx). lia.
  - intros n' Hn' Hx'. apply Hno. intros n Hn Hx.
    pose proof (numberIs_functional _ _ _ Hx' Hx). lia.
  - intros Hnone. apply Hno. intros n _. apply Hnone.
  - repeat split; vm_compute; reflexivity.
Qed.

Example isVolunteersValid_readings :
  isVolunteersValid " 4 " = true /\ isVolunteersValid "4.0" = true
  /\ isVolunteersValid "1e2" = true /\ isVolunteersValid "0x10" = true
  /\ isVolunteersValid "" = false /\ isVolunteersValid "four" = false
  /\ isVolunteersValid "1e400" = false /\ isVolunteersValid "0.5" = false
  /\ isVolunteersValid "-0" = false.
Proof. repeat split; vm_compute; reflexivity. Qed.

(** What [Number] makes of a few texts. *)
Example Number_readings :
  numberIs (Number "4") 4 /\ numberIs (Number " 12e1 ") 120
  /\ numberIs (Number "0x1F") 31 /\ numberIs (Number "-3") (-3)
  /\ numberIs (Number "") 0 /\ numberIs (Number "-0") 0
  /\ Number "abc" = S754_nan /\ Number "1e" = S754_nan
  /\ Number "1e400" = S754_infinity false
  /\ Number "2.5" = S754_finite false 5629499534213120 (-51)
  /\ Number "0.1" = S754_finite false 7205759403792794 (-56).
Proof. repeat split; vm_compute; reflexivity. Qed.

(** *** Composite validity *)

Section WithPlatform.
Context {platform : Platform}.

(** What [allValid] checks: five rules, and nothing about [position]. *)
Lemma allValid_rules (now : Z) (st : State) :
  allValid now st = true
  <-> name st <> ""
      /\ (String.length (about st) <= 300)%nat
      /\ isVolunteersValid (volNeeded st) = true
      /\ (exists t, date st = Some t /\ now <= t)
      /\ (exists url, imageUrl st = Some url /\ url <> "").
Proof.
  unfold allValid, isDescriptionValid, isDateValid.
  rewrite !andb_true_iff, Nat.leb_le. split.
  - intros (((((Hn & Ha) & Hv) & Hd) & Hi) & _).
    repeat split; try assumption.
    + destruct (name st); [discriminate | congruence].
    + destruct (date st) as [t|]; [|discriminate].
      exists t. split; [reflexivity | now apply Z.leb_le].
    + destruct (imageUrl st) as [[|c r]|]; try discriminate.
      eexists. split; [reflexivity | congruence].
  - intros (Hn & Ha & Hv & (t & Ht & Hle) & (url & Hu & Hne)).
    rewrite Ht, Hu. repeat split; try assumption.
    + destruct (name st); [congruence | reflexivity].
    + now apply Z.leb_le.
    + destruct url; [congruence | reflexivity].
Qed.

Lemma allValid_withPosition (now : Z) (p : option Position) (st : State) :
  allValid now (withPosition p st) = allValid now st.
Proof. reflexivity. Qed.

(** A draft that fails [allValid] is not sent. *)
Lemma onSave_invalid (now : Z) (post : FetchOutcome) (st : State) :
  allValid now st = false ->
  onSave now post st = [ShowAlert validationAlert].
Proof.
  intros H. unfold onSave. rewrite H. now destruct (date st).
Qed.

(** C10. For a draft that passes [allValid], [onSave] sends one POST to
    the events endpoint; its body has the organizer ["ImAdmin"] and an
    empty list of volunteers, next to the fields of the draft. The body is
    built from the draft alone: whoever is logged in, with an id other than
    that constant, is not the organizer. *)
Theorem onSave_body (now : Z) (post : FetchOutcome) (st : State) :
  allValid now st = true ->
  exists d,
    date st = Some d
    /\ hd_error (onSave now post st)
       = Some (Post (API_BASE +:+ "/events")
                 (mkNewEvent (name st) (about st) "ImAdmin"
                    (Date_toISOString d) (imageUrl st) (position st)
                    (Number (volNeeded st)) []))
    /\ (forall url body, In (Post url body) (onSave now post st) ->
          post_organizerId body = "ImAdmin"
          /\ post_volunteersIds body = []
          /\ forall loggedIn : string,
               loggedIn <> "ImAdmin" -> post_organizerId body <> loggedIn).
Proof.
  intros Hv. pose proof Hv as Hr.
  apply allValid_rules in Hr as (_ & _ & _ & (d & Hd & _) & _).
  exists d. split; [assumption|].
  unfold onSave. rewrite Hd, Hv. cbn [negb].
  split; [now destruct post as [|[|]]|].
  intros url body Hin.
  assert (Hb : body = mkNewEvent (name st) (about st) "ImAdmin"
                        (Date_toISOString d) (imageUrl st) (position st)
                        (Number (volNeeded st)) []).
  { destruct post as [|[|]]; cbn in Hin;
      repeat (destruct Hin as [Hin|Hin]; [congruence|]); destruct Hin. }
  subst body. cbn. repeat split. congruence.
Qed.

End WithPlatform.

Lemma onSave_body_witness :
  hd_error (@onSave sample 1000 (FetchResolves true)
              (withPosition (Some (mkPosition (S754_zero false) (S754_zero false)))
                 draftWithoutPosition))
  = Some (Post "http://localhost:3333/events"
            (mkNewEvent "Park day" "Bring gloves" "ImAdmin"
               "1970-01-01T00:00:00.000Z" (Some "https://img.example/a.jpg")
               (Some (mkPosition (S754_zero false) (S754_zero false)))
               (Number "4") [])).
Proof.
  destruct (@onSave_body sample 1000 (FetchResolves true)
              (withPosition (Some (mkPosition (S754_zero false) (S754_zero false)))
                 draftWithoutPosition))
    as (d & Hd & Hhd & _).
  - vm_compute. reflexivity.
  - injection Hd as <-. exact Hhd.
Defined.

(** C2. A draft with every field filled in correctly except that no
    position came with the route: [allValid] holds (the Save button is
    enabled) and [onSave] posts the event, without a position. *)
Theorem allValid_without_position :
  position draftWithoutPosition = None
  /\ allValid 1000 draftWithoutPosition = true
  /\ @onSave sample 1000 (FetchResolves true) draftWithoutPosition
     = [Post "http://localhost:3333/events"
          (mkNewEvent "Park day" "Bring gloves" "ImAdmin"
             "1970-01-01T00:00:00.000Z" (Some "https://img.example/a.jpg")
             None (Number "4") []);
        ShowAlert saveSuccess; Navigate "EventsMap"].
Proof. repeat split; vm_compute; reflexivity. Qed.

(** *** Content encoding *)

Lemma split_cons (isSep : ascii -> bool) (s : string) :
  exists piece pieces, split isSep s = piece :: pieces.
Proof.
  destruct s as [|c r]; simpl; [eauto|].
  destruct (isSep c); [eauto|]. destruct (split isSep r); eauto.
Qed.

Lemma split_no_separator (s : string) :
  includesChar "," s = false -> split isComma s = [s].
Proof.
  induction s as [|c r IH]; simpl; [reflexivity|].
  unfold isComma at 1. rewrite (Ascii.eqb_sym "," c).
  destruct (Ascii.eqb c ","); [discriminate|].
  intros H. now rewrite (IH H).
Qed.

(** The pieces on both sides of a separator are the pieces of the whole. *)
Lemma split_app (isSep : ascii -> bool) (c : ascii) (p t : string) :
  isSep c = true ->
  split isSep (p +:+ String c t) = split isSep p ++ split isSep t.
Proof.
  intros Hc. induction p as [|d p IH]; simpl.
  - now rewrite Hc.
  - rewrite IH. destruct (isSep d); [reflexivity|].
    now destruct (split_cons isSep p) as (piece & pieces & ->).
Qed.

(** Every text is free of commas, or has a last comma. *)
Lemma last_comma (s : string) :
  if includesChar "," s
  then exists p t, s = p +:+ String "," t /\ includesChar "," t = false
  else True.
Proof.
  induction s as [|c r IH]; simpl; [exact I|].
  destruct (includesChar "," r) eqn:Hr.
  - destruct IH as (p & t & -> & Ht).
    replace (if Ascii.eqb c "," then true else true) with true
      by now destruct (Ascii.eqb c ",").
    now exists (String c p), t.
  - destruct (Ascii.eqb_spec c ",") as [->|_]; [|exact I].
    now exists "", r.
Qed.

Lemma pop_split_after_last_comma (p t : string) :
  includesChar "," t = false ->
  pop (split isComma (p +:+ String "," t)) = Some t.
Proof.
  intros Ht. rewrite split_app by reflexivity.
  rewrite (split_no_separator t Ht). unfold pop. apply last_snoc.
Qed.

Lemma includesChar_app (p t : string) :
  includesChar "," (p +:+ String "," t) = true.
Proof.
  induction p as [|d p IH]; simpl; [reflexivity|].
  now destruct (Ascii.eqb d ",").
Qed.

(** Content with more than one comma: what follows the last one is
    kept. *)
Example encodeContent_two_commas :
  encodeContent (fromStorage "QUJD") twoCommas = Normal "QUJD".
Proof. reflexivity. Qed.

Lemma encodeContent_attached
    (readAsStringAsync : string -> Completion string) (asset : Asset)
    (s : string) :
  base64 asset = Some s -> s <> "" ->
  encodeContent readAsStringAsync asset
  = match (if includesChar "," s then pop (split isComma s) else Some s) with
    | Some (String _ _ as t) => Normal t
    | _ => readAsStringAsync (uri asset)
    end.
Proof.
  intros Hb Hs. unfold encodeContent. rewrite Hb.
  destruct s as [|c r]; [congruence|]. cbn [truthy andb].
  destruct (includesChar "," (String c r)); [|reflexivity].
  change (Ascii.eqb ",") with isComma.
  now destruct (pop (split isComma (String c r))) as [[|d t]|].
Qed.

Lemma append_String_assoc (p q r : string) (c : ascii) :
  (p +:+ String c q) +:+ r = p +:+ String c (q +:+ r).
Proof.
  induction p as [|x p IH]; [reflexivity|].
  change (String x ((p +:+ String c q) +:+ r)
          = String x (p +:+ String c (q +:+ r))).
  f_equal. exact IH.
Qed.

Lemma afterFirstComma_none (s : string) :
  includesChar "," s = false -> afterFirstComma s = None.
Proof.
  induction s as [|d s IH]; simpl; [reflexivity|].
  destruct (Ascii.eqb d ","); [discriminate | exact IH].
Qed.

Lemma afterFirstComma_app (p t : string) :
  includesChar "," p = false ->
  afterFirstComma (p +:+ String "," t) = Some t.
Proof.
  induction p as [|d p IH]; simpl; [reflexivity|].
  destruct (Ascii.eqb d ","); [discriminate | exact IH].
Qed.

(** What the stage does with any attached content [s] (a non-empty
    text): the payload is [s] itself when it has no comma, and otherwise
    the part [t] of [s] after its last comma; when that part is empty the
    payload is whatever the file read gives. *)
Lemma encodeContent_lastComma
    (readAsStringAsync : string -> Completion string) (asset : Asset) :
  match base64 asset with
  | Some (String _ _ as s) =>
      exists t,
        includesChar "," t = false
        /\ (s = t \/ exists p, s = p +:+ String "," t)
        /\ encodeContent readAsStringAsync asset
           = match t with
             | EmptyString => readAsStringAsync (uri asset)
             | String _ _ => Normal t
             end
        /\ ((forall p p', s <> p +:+ String "," (p' +:+ String "," t)) ->
            encodeContent readAsStringAsync asset
            = encodeContent_firstComma readAsStringAsync asset
            \/ t = "")
  | _ => encodeContent readAsStringAsync asset = readAsStringAsync (uri asset)
  end.
Proof.
  destruct (base64 asset) as [[|c r]|] eqn:Hb.
  - unfold encodeContent. now rewrite Hb.
  - set (s := String c r) in *.
    rewrite (encodeContent_attached readAsStringAsync asset s Hb)
      by discriminate.
    unfold encodeContent_firstComma. rewrite Hb. fold s.
    pose proof (last_comma s) as Hlast.
    destruct (includesChar "," s) eqn:Hs.
    + destruct Hlast as (p & t & Heq & Ht). exists t.
      rewrite Heq, (pop_split_after_last_comma p t Ht).
      split; [assumption|]. split; [right; now exists p|].
      split; [now destruct t|].
      intros Hsingle. destruct t as [|d t']; [now right|left].
      assert (Hp : includesChar "," p = false).
      { destruct (includesChar "," p) eqn:Hp; [|reflexivity].
        pose proof (last_comma p) as Hl. rewrite Hp in Hl.
        destruct Hl as (p1 & p2 & -> & _).
        destruct (Hsingle p1 p2). apply append_String_assoc. }
      rewrite (afterFirstComma_app p _ Hp).
      assert (Hne : exists x y, p +:+ String "," (String d t') = String x y).
      { destruct p; simpl; eauto. }
      destruct Hne as (x & y & ->). reflexivity.
    + exists s. split; [assumption|]. split; [now left|].
      split; [reflexivity|]. intros _. left.
      rewrite (afterFirstComma_none s Hs). reflexivity.
  - unfold encodeContent. now rewrite Hb.
Qed.

Lemma afterFirstComma_some (s q : string) :
  afterFirstComma s = Some q -> exists p, s = p +:+ String "," q.
Proof.
  revert q. induction s as [|c r IH]; cbn; [discriminate|].
  destruct (Ascii.eqb_spec c ",") as [->|_].
  - intros q [= <-]. now exists "".
  - intros q Hq. destruct (IH q Hq) as (p & ->). now exists (String c p).
Qed.

Lemma afterFirstComma_none_inv (s : string) :
  afterFirstComma s = None -> includesChar "," s = false.
Proof.
  induction s as [|c r IH]; cbn; [reflexivity|].
  destruct (Ascii.eqb c ","); [discriminate | exact IH].
Qed.

Section Encoding.
Context {platform : Platform}.

(** C8. For every acquired asset. With attached content [s] that is
    base64 text, possibly behind a data-URI prefix that ends at the first
    comma of [s] (the text after the prefix is not empty and, being
    base64, has no comma), the payload handed to the upload is that text:
    [s] with everything up to and including its first comma dropped, if
    there is a comma. Without attached content the payload is what reading
    the asset's file as base64 gives, and that is what is uploaded: when
    the upload answers it with a URL, the URL becomes the image of the
    draft and nothing is alerted. *)
Theorem encodeContent_attached_or_storage
    (getInfoAsync : string -> Completion (option Z))
    (readAsStringAsync : string -> Completion string)
    (uploadImage : string -> Completion (option string))
    (asset : Asset) (st : State) :
  (forall s,
     base64 asset = Some s -> s <> "" ->
     let payload := default s (afterFirstComma s) in
     payload <> "" -> includesChar "," payload = false ->
     encodeContent readAsStringAsync asset = Normal payload
     /\ encodeContent readAsStringAsync asset
        = encodeContent_firstComma readAsStringAsync asset)
  /\ (base64 asset = None \/ base64 asset = Some "" ->
      encodeContent readAsStringAsync asset = readAsStringAsync (uri asset)
      /\ forall info content url,
           getInfoAsync (uri asset) = Normal info ->
           readAsStringAsync (uri asset) = Normal content ->
           uploadImage content = Normal (Some url) -> url <> "" ->
           let out := handleImagePicked getInfoAsync readAsStringAsync
                        uploadImage asset st in
           imageUrl (fst out) = Some url /\ snd out = []).
Proof.
  split.
  - intros s Hb Hs payload Hne Hclean.
    assert (Hcode : encodeContent readAsStringAsync asset = Normal payload).
    { rewrite (encodeContent_attached readAsStringAsync asset s Hb Hs).
      subst payload.
      destruct (afterFirstComma s) as [q|] eqn:Hq;
        cbv [default from_option Datatypes.id] in *.
      - destruct (afterFirstComma_some s q Hq) as (p & ->).
        rewrite includesChar_app, (pop_split_after_last_comma p q Hclean).
        destruct q; [congruence | reflexivity].
      - rewrite (afterFirstComma_none_inv s Hq).
        destruct s; [congruence | reflexivity]. }
    split; [exact Hcode|]. rewrite Hcode.
    unfold encodeContent_firstComma. rewrite Hb.
    destruct s; [congruence | reflexivity].
  - intros Hnone.
    assert (Hread : encodeContent readAsStringAsync asset
                    = readAsStringAsync (uri asset)).
    { unfold encodeContent. now destruct Hnone as [-> | ->]. }
    split; [exact Hread|].
    intros info content url Hinfo Hcontent Hurl Hne out. subst out.
    unfold handleImagePicked.
    rewrite Hinfo, Hread, Hcontent, Hurl.
    destruct url; [congruence|]. split; reflexivity.
Qed.

End Encoding.

Lemma encodeContent_attached_or_storage_witness :
  encodeContent (fromStorage "") dataUri = Normal "QUJD".
Proof.
  apply (proj1 (@encodeContent_attached_or_storage sample
                  (fun _ => Normal None) (fromStorage "") (fun _ => Throws)
                  dataUri draftWithoutPosition)
           "data:image/png;base64,QUJD").
  - reflexivity.
  - discriminate.
  - discriminate.
  - reflexivity.
Defined.

(** Scenario E: no attached content; the bytes read from storage are the
    payload that is uploaded. *)
Example scenario_E :
  let asset := mkAsset "file:///photos/a.jpg" None None in
  encodeContent (fromStorage "QUJD") asset = Normal "QUJD"
  /\ imageUrl
       (fst (@handleImagePicked sample (fun _ => Normal (Some 2048))
               (fromStorage "QUJD")
               (fun payload =>
                  if String.eqb payload "QUJD"
                  then Normal (Some "https://img.example/a.jpg")
                  else Throws)
               asset draftWithoutPosition))
     = Some "https://img.example/a.jpg".
Proof. split; reflexivity. Qed.

End AddEventFormSpec.

(** * Further properties *)

(** ** What a signup can and cannot do *)
Module EventDetailsFacts.
Import Js EventDetails Sample Terms EventDetailsSpec.

(** The three ways [handleVolunteer] goes. *)
Lemma handleVolunteer_cases (p : FetchOutcome) (st : State) :
  (handleVolunteer p st = (st, [])
   /\ (event st = None
       \/ truthy (userId st) = true
          /\ isVolunteered st || isFull st = true))
  \/ (handleVolunteer p st = (st, [ShowAlert loginRequired])
      /\ event st <> None /\ truthy (userId st) = false)
  \/ (exists e u,
        event st = Some e /\ userId st = Some u /\ u <> ""
        /\ isVolunteered st || isFull st = false
        /\ handleVolunteer p st
           = let ids' := volunteersIds e ++ [u] in
             let request :=
               Patch (EventDetails.API_BASE +:+ "/events/" +:+ id e) ids' in
             match p with
             | FetchResolves _ =>
                 (mkState (Some (withVolunteersIds e ids')) (Some u),
                  [request; ShowAlert signupSuccess])
             | FetchRejects => (st, [request; ShowAlert signupFailed])
             end).
Proof.
  destruct st as [[e|] uid]; unfold handleVolunteer; cbn [event userId].
  - destruct uid as [[|c r]|].
    + right; left. split; [reflexivity|].
      split; [discriminate | reflexivity].
    + destruct (isVolunteered _ || isFull _) eqn:Hg.
      * left. split; [reflexivity|]. right. now split.
      * right; right. exists e, (String c r).
        split; [reflexivity|]. split; [reflexivity|]. split; [discriminate|].
        split; [reflexivity|]. now destruct p.
    + right; left. split; [reflexivity|].
      split; [discriminate | reflexivity].
  - left. split; [reflexivity | now left].
Qed.

Lemma guard_open (e : Event) (uid : option string) (u : string) :
  uid = Some u -> u <> "" ->
  isVolunteered (mkState (Some e) uid) || isFull (mkState (Some e) uid) = false ->
  (u ∉ volunteersIds e)
  /\ Z.of_nat (length (volunteersIds e)) < volunteersNeeded e.
Proof.
  intros -> Hu Hg. apply orb_false_iff in Hg as [Hv Hf].
  change (mkState (Some e) (Some u)) with (screen e u) in Hv.
  rewrite isVolunteered_screen in Hv by assumption.
  split; [now apply includes_not_elem_of|].
  destruct (Z.ltb_spec (Z.of_nat (length (volunteersIds e))) (volunteersNeeded e))
    as [|Hge]; [assumption|].
  assert (isFull (mkState (Some e) (Some u)) = true)
    by (apply isFull_spec; lia).
  congruence.
Qed.

(** X1. Whatever the state and the outcome of the request,
    [handleVolunteer] keeps the user id, keeps "no event" as it is, and
    changes of an event nothing but its volunteers, which stay as they
    are or get the (non-empty) user id appended. *)
Theorem handleVolunteer_frame (p : FetchOutcome) (st : State) :
  let st' := fst (handleVolunteer p st) in
  userId st' = userId st
  /\ (event st = None -> event st' = None)
  /\ (forall e, event st = Some e ->
        exists ids',
          event st' = Some (withVolunteersIds e ids')
          /\ (ids' = volunteersIds e
              \/ exists u, userId st = Some u /\ u <> ""
                           /\ ids' = volunteersIds e ++ [u])).
Proof.
  intros st'. subst st'.
  destruct (handleVolunteer_cases p st)
    as [[-> _]|[[-> _]|(e & u & He & Hu & Hne & _ & ->)]]; cbn [fst].
  - repeat split; [auto|]. intros e He. exists (volunteersIds e).
    split; [|now left]. rewrite He. now destruct e.
  - repeat split; [auto|]. intros e He. exists (volunteersIds e).
    split; [|now left]. rewrite He. now destruct e.
  - destruct p as [|ok]; cbn [fst userId event].
    + repeat split; [congruence|]. intros e' He'. exists (volunteersIds e').
      split; [|now left]. rewrite He'. now destruct e'.
    + repeat split; [congruence | congruence|].
      intros e' He'. assert (e' = e) as -> by congruence.
      exists (volunteersIds e ++ [u]). split; [reflexivity|].
      right. now exists u.
Qed.

(** X2. A signup through this screen never takes an event past its head
    count: the number of volunteers after the call is at most the larger
    of the number before and [volunteersNeeded]. *)
Theorem handleVolunteer_capacity (p : FetchOutcome) (st : State) (e : Event) :
  event st = Some e ->
  Z.of_nat (length (shownIds (fst (handleVolunteer p st))))
  <= Z.max (Z.of_nat (length (volunteersIds e))) (volunteersNeeded e).
Proof.
  intros He.
  destruct (handleVolunteer_cases p st)
    as [[-> _]|[[-> _]|(e' & u & He' & Hu & Hne & Hg & ->)]]; cbn [fst].
  - unfold shownIds. rewrite He. lia.
  - unfold shownIds. rewrite He. lia.
  - assert (e' = e) as -> by congruence.
    destruct st as [ev uid]; cbn in He, Hu; subst ev.
    destruct (guard_open e uid u Hu Hne Hg) as [_ Hlt].
    destruct p as [|ok]; cbn [fst shownIds event volunteersIds withVolunteersIds].
    + lia.
    + rewrite length_app. cbn [length]. lia.
Qed.

Lemma handleVolunteer_capacity_witness :
  Z.of_nat (length (shownIds (fst (handleVolunteer (FetchResolves true)
                                     (screen cleanup "u2")))))
  <= Z.max 1 2.
Proof.
  apply (handleVolunteer_capacity (FetchResolves true) (screen cleanup "u2")
           cleanup).
  reflexivity.
Defined.

(** X3. A signup never introduces a duplicate: volunteers without
    duplicates stay without duplicates, whatever the state and the outcome
    of the request. *)
Theorem handleVolunteer_NoDup (p : FetchOutcome) (st : State) :
  NoDup (shownIds st) ->
  NoDup (shownIds (fst (handleVolunteer p st))).
Proof.
  intros Hnd.
  destruct (handleVolunteer_cases p st)
    as [[-> _]|[[-> _]|(e & u & He & Hu & Hne & Hg & ->)]]; cbn [fst];
    try assumption.
  destruct st as [ev uid]; cbn in He, Hu; subst ev.
  destruct (guard_open e uid u Hu Hne Hg) as [Hout _].
  destruct p as [|ok]; cbn [fst]; [assumption|].
  cbn [shownIds event volunteersIds withVolunteersIds] in *.
  apply NoDup_app. repeat split; [assumption| |apply NoDup_singleton].
  intros x Hx Hx'. apply list_elem_of_singleton in Hx'. now subst.
Qed.

Lemma handleVolunteer_NoDup_witness :
  NoDup (shownIds (fst (handleVolunteer (FetchResolves true)
                          (screen cleanup "u2")))).
Proof.
  apply (handleVolunteer_NoDup (FetchResolves true) (screen cleanup "u2")).
  cbn. apply NoDup_singleton.
Defined.

(** X4. A PATCH is sent exactly when an event is on display, a user is
    logged in, is not yet a volunteer and the team is not full; it then
    goes to that event and carries the volunteers with the user appended.
    Nothing is sent for a logged-out user, a volunteer or a full team. *)
Theorem handleVolunteer_request_iff (p : FetchOutcome) (st : State)
    (url : string) (ids' : list string) :
  In (Patch url ids') (snd (handleVolunteer p st))
  <-> exists e u,
        event st = Some e /\ userId st = Some u /\ u <> ""
        /\ (u ∉ volunteersIds e)
        /\ Z.of_nat (length (volunteersIds e)) < volunteersNeeded e
        /\ url = EventDetails.API_BASE +:+ "/events/" +:+ id e
        /\ ids' = volunteersIds e ++ [u].
Proof.
  destruct (handleVolunteer_cases p st)
    as [[-> Hwhy]|[[-> (He & Hu)]|(e & u & He & Hu & Hne & Hg & ->)]];
    cbn [snd].
  - split; [intros []|]. intros (e & u & He & Hu & Hne & Hout & Hlt & _).
    destruct Hwhy as [Hnone|[_ Hg]]; [congruence|].
    destruct st as [ev uid]; cbn in He, Hu; subst ev uid.
    apply orb_true_iff in Hg as [Hv|Hf].
    + change (mkState (Some e) (Some u)) with (screen e u) in Hv.
      rewrite isVolunteered_screen in Hv by assumption.
      now apply includes_elem_of in Hv.
    + apply isFull_spec in Hf. lia.
  - split; [intros [H|[]]; discriminate|].
    intros (e & u & _ & Hu' & Hne & _). rewrite Hu' in Hu.
    destruct u; [congruence | discriminate].
  - destruct st as [ev uid]; cbn in He, Hu; subst ev.
    destruct (guard_open e uid u Hu Hne Hg) as [Hout Hlt].
    assert (Hin : forall a,
              In (Patch url ids')
                 [Patch (EventDetails.API_BASE +:+ "/events/" +:+ id e)
                    (volunteersIds e ++ [u]); ShowAlert a]
              <-> url = EventDetails.API_BASE +:+ "/events/" +:+ id e
                  /\ ids' = volunteersIds e ++ [u]).
    { intros a. cbn. split.
      - intros [H|[H|[]]]; [now injection H as <- <- | discriminate].
      - intros [-> ->]. now left. }
    assert (Hsnd : In (Patch url ids') (snd
              (let ids'0 := volunteersIds e ++ [u] in
               let request :=
                 Patch (EventDetails.API_BASE +:+ "/events/" +:+ id e) ids'0 in
               match p with
               | FetchRejects =>
                   ({| event := Some e; userId := uid |},
                    [request; ShowAlert signupFailed])
               | FetchResolves _ =>
                   ({| event := Some (withVolunteersIds e ids'0);
                       userId := Some u |},
                    [request; ShowAlert signupSuccess])
               end))
             <-> url = EventDetails.API_BASE +:+ "/events/" +:+ id e
                 /\ ids' = volunteersIds e ++ [u]).
    { destruct p; cbn [snd]; apply Hin. }
    rewrite Hsnd. split.
    + intros [-> ->]. exists e, u. cbn [event userId]. now repeat split.
    + intros (e' & u' & He' & Hu'' & _ & _ & _ & -> & ->).
      cbn [event userId] in He', Hu''. split; congruence.
Qed.

End EventDetailsFacts.

(** ** The details screen: buttons, organizer, loading *)
Module DetailsScreenFacts.
Import Js EventDetailsScreen Fixtures.

(** X5. With an event on display, the Volunteer button is there exactly
    when the status box shows the count; a full team the user is not part
    of has no Share, Volunteer, Call or Text button; a volunteer has
    Share, Call and Text; and while the Volunteer button is not there the
    handler behind it changes nothing and sends nothing, for any outcome
    of a request. *)
Theorem actionButtons_follow_status (st : EventDetails.State) (e : Event) :
  EventDetails.event st = Some e ->
  (volunteerButton (actionButtons st) = true
   <-> EventDetails.statusBox st
       = Some (EventDetails.NeededCount (length (volunteersIds e))
                 (volunteersNeeded e)))
  /\ (EventDetails.statusBox st = Some EventDetails.TeamIsFull ->
      actionButtons st = mkButtons false false false)
  /\ (EventDetails.statusBox st = Some EventDetails.Volunteered ->
      actionButtons st = mkButtons true false true)
  /\ (volunteerButton (actionButtons st) = false ->
      forall p,
        fst (EventDetails.handleVolunteer p st) = st
        /\ forall url ids,
             ~ In (EventDetails.Patch url ids)
                  (snd (EventDetails.handleVolunteer p st))).
Proof.
  intros He. unfold actionButtons, EventDetails.statusBox. rewrite He.
  cbn [volunteerButton].
  split; [|split; [|split]].
  - destruct (EventDetails.isVolunteered st), (EventDetails.isFull st);
      cbn; split; congruence.
  - destruct (EventDetails.isVolunteered st), (EventDetails.isFull st);
      cbn; congruence.
  - destruct (EventDetails.isVolunteered st), (EventDetails.isFull st);
      cbn; congruence.
  - intros Hhidden p.
    assert (Hg : EventDetails.isVolunteered st || EventDetails.isFull st = true).
    { destruct (EventDetails.isVolunteered st), (EventDetails.isFull st);
        cbn in *; congruence. }
    destruct (EventDetailsFacts.handleVolunteer_cases p st)
      as [[-> _]|[[-> _]|(e' & u & _ & _ & _ & Hopen & _)]].
    + split; [reflexivity|]. intros url ids [].
    + split; [reflexivity|]. intros url ids [H|[]]. discriminate.
    + congruence.
Qed.

Lemma actionButtons_follow_status_witness :
  volunteerButton (actionButtons (Terms.screen Sample.cleanup "u9")) = true.
Proof.
  apply (actionButtons_follow_status (Terms.screen Sample.cleanup "u9")
           Sample.cleanup eq_refl).
  reflexivity.
Defined.

(** *** The organizer *)

Lemma keepChars_filter (keep : ascii -> bool) (s : string) :
  list_ascii_of_string (keepChars keep s)
  = List.filter keep (list_ascii_of_string s).
Proof.
  induction s as [|c r IH]; [reflexivity|]. cbn.
  destruct (keep c); cbn; now rewrite IH.
Qed.

Lemma keepChars_idempotent (keep : ascii -> bool) (s : string) :
  keepChars keep (keepChars keep s) = keepChars keep s.
Proof.
  induction s as [|c r IH]; [reflexivity|]. cbn.
  destruct (keep c) eqn:Hc; cbn; [|exact IH]. now rewrite Hc, IH.
Qed.

Lemma organizerPhone_chars (organizer : option User) :
  list_ascii_of_string (organizerPhone organizer)
  = List.filter isDigitOrPlus
      (list_ascii_of_string (default "" (organizer ≫= user_mobile))).
Proof.
  unfold organizerPhone.
  destruct (organizer ≫= user_mobile) as [m|]; [|reflexivity].
  apply keepChars_filter.
Qed.

(** X6. The phone number used for dialling consists of decimal digits and
    plus signs only, keeps every digit and plus sign of the stored mobile
    number in order, and normalising it again changes nothing; without an
    organizer or a mobile number it is empty. *)
Theorem organizerPhone_digits (organizer : option User) :
  (forall c, In c (list_ascii_of_string (organizerPhone organizer)) ->
             isDigitOrPlus c = true)
  /\ list_ascii_of_string (organizerPhone organizer)
     = List.filter isDigitOrPlus
         (list_ascii_of_string (default "" (organizer ≫= user_mobile)))
  /\ keepChars isDigitOrPlus (organizerPhone organizer)
     = organizerPhone organizer
  /\ (organizer ≫= user_mobile = None -> organizerPhone organizer = "").
Proof.
  unfold organizerPhone.
  destruct (organizer ≫= user_mobile) as [m|];
    change (default "" (keepChars isDigitOrPlus <$> Some m)) with (keepChars isDigitOrPlus m)
    || change (default "" (keepChars isDigitOrPlus <$> @None string)) with "";
    cbn [default].
  - split; [|split; [|split]].
    + intros c. rewrite keepChars_filter, filter_In. tauto.
    + apply keepChars_filter.
    + apply keepChars_idempotent.
    + discriminate.
  - repeat split. intros c [].
Qed.

(** X7. Call and Text open a link exactly when the organizer's mobile
    number has a digit or a plus sign in it; the link is the scheme
    followed by the normalised number. Otherwise the one thing that
    happens is the alert that no number is available. *)
Theorem handleCall_handleText (organizer : option User) :
  let phone := organizerPhone organizer in
  (phone <> "" ->
   handleCall organizer = [OpenURL ("tel:" +:+ phone)]
   /\ handleText organizer = [OpenURL ("sms:" +:+ phone)])
  /\ (phone = "" ->
      handleCall organizer = [LinkAlert phoneUnavailable]
      /\ handleText organizer = [LinkAlert phoneUnavailable])
  /\ (phone = ""
      <-> forall c,
            In c (list_ascii_of_string (default "" (organizer ≫= user_mobile))) ->
            isDigitOrPlus c = false).
Proof.
  intros phone. unfold handleCall, handleText. fold phone.
  split; [|split].
  - destruct phone; [congruence | now split].
  - intros ->. now split.
  - subst phone.
    pose proof (organizerPhone_chars organizer) as Hf.
    split.
    + intros Hempty c Hc. rewrite Hempty in Hf. cbn in Hf.
      destruct (isDigitOrPlus c) eqn:Hk; [|reflexivity].
      assert (In c []) as []. rewrite Hf. now apply filter_In.
    + intros Hnone.
      destruct (organizerPhone organizer) as [|c r] eqn:Hp; [reflexivity|].
      cbn in Hf. assert (Hin : In c (c :: list_ascii_of_string r)) by now left.
      rewrite Hf in Hin. apply filter_In in Hin as [Hin Hk].
      rewrite (Hnone c Hin) in Hk. discriminate.
Qed.

Lemma handleCall_handleText_witness :
  handleCall (Some ada) = [OpenURL "tel:+15550109999"].
Proof.
  apply (handleCall_handleText (Some ada)). discriminate.
Defined.

(** *** White space *)

Lemma trimStart_head (l : list ascii) :
  match trimStart l with
  | c :: _ => isStrWhiteSpaceChar c = false
  | [] => True
  end.
Proof.
  induction l as [|c l IH]; cbn; [exact I|].
  destruct (isStrWhiteSpaceChar c) eqn:Hc; [exact IH | exact Hc].
Qed.

Lemma trimStart_suffix (l : list ascii) :
  exists ws, l = ws ++ trimStart l
             /\ Forall (fun c => isStrWhiteSpaceChar c = true) ws.
Proof.
  induction l as [|c l (ws & Hl & Hws)]; cbn.
  - exists []. split; [reflexivity | constructor].
  - destruct (isStrWhiteSpaceChar c) eqn:Hc.
    + exists (c :: ws). split; [cbn; congruence | now constructor].
    + exists []. split; [reflexivity | constructor].
Qed.

Lemma trimStart_blank (l : list ascii) :
  Forall (fun c => isStrWhiteSpaceChar c = true) l -> trimStart l = [].
Proof.
  induction 1 as [|c l Hc _ IH]; cbn; [reflexivity|]. now rewrite Hc.
Qed.

Lemma trim_blank (l : list ascii) :
  Forall (fun c => isStrWhiteSpaceChar c = true) l -> trim l = [].
Proof. intros H. unfold trim. now rewrite (trimStart_blank l H). Qed.

(** A trimmed text does not start or end with white space. *)
Lemma trim_ends (l : list ascii) :
  match trim l with
  | c :: r =>
      isStrWhiteSpaceChar c = false
      /\ forall d, last (c :: r) = Some d -> isStrWhiteSpaceChar d = false
  | [] => True
  end.
Proof.
  unfold trim. pose proof (trimStart_head l) as Hhead.
  set (t := trimStart l) in *.
  pose proof (trimStart_head (rev t)) as Hlast.
  destruct (trimStart_suffix (rev t)) as (ws & Hrev & _).
  set (r := trimStart (rev t)) in *.
  destruct (rev r) as [|c r'] eqn:Hr; [exact I|].
  split.
  - assert (Ht : t = (c :: r') ++ rev ws).
    { rewrite <- Hr, <- rev_app_distr, <- Hrev. now rewrite rev_involutive. }
    rewrite Ht in Hhead. exact Hhead.
  - intros d Hd. rewrite <- Hr in Hd.
    destruct r as [|x r'']; [discriminate|].
    cbn [rev] in Hd. rewrite last_snoc in Hd. injection Hd as <-.
    exact Hlast.
Qed.

(** X8. The name shown for the organizer falls back from the name to the
    e-mail address to "Unknown": without an organizer it is "Unknown"; a
    non-empty text name is shown as it is; and the shown name is empty
    only when the organizer's e-mail address is the empty text. *)
Theorem organizerName_fallback (organizer : option User) :
  (organizer = None -> organizerName organizer = "Unknown")
  /\ (forall u text,
        organizer = Some u -> user_name u = Some (NameText text) ->
        text <> "" -> organizerName organizer = text)
  /\ (forall u,
        organizer = Some u -> user_name u = None ->
        organizerName organizer = default "Unknown" (user_email u))
  /\ (organizerName organizer = "" ->
      exists u, organizer = Some u /\ user_email u = Some "").
Proof.
  split; [now intros ->|]. split; [|split].
  - intros u text -> Hn Ht. unfold organizerName. cbn. rewrite Hn.
    destruct text; [congruence | reflexivity].
  - intros u -> Hn. unfold organizerName. cbn. now rewrite Hn.
  - assert (Hemail : emailOrUnknown organizer = "" ->
                     exists u, organizer = Some u /\ user_email u = Some "").
    { unfold emailOrUnknown. destruct organizer as [u|]; cbn; [|discriminate].
      destruct (user_email u) as [m|] eqn:Hm; cbn; [|discriminate].
      intros ->. now exists u. }
    unfold organizerName.
    destruct (organizer ≫= user_name) as [[[|c r]|first last]|];
      try exact Hemail; [discriminate|].
    cbn zeta. destruct (String_trim _) as [|c r]; cbn; [exact Hemail|].
    discriminate.
Qed.

Lemma trim_decompose (l : list ascii) :
  exists before after,
    l = before ++ trim l ++ after
    /\ Forall (fun c => isStrWhiteSpaceChar c = true) before
    /\ Forall (fun c => isStrWhiteSpaceChar c = true) after.
Proof.
  destruct (trimStart_suffix l) as (ws1 & Hl & Hws1).
  destruct (trimStart_suffix (rev (trimStart l))) as (ws2 & Hrev & Hws2).
  exists ws1, (rev ws2). unfold trim. split; [|split].
  - rewrite <- rev_app_distr, <- Hrev, rev_involutive. exact Hl.
  - exact Hws1.
  - now apply Forall_rev.
Qed.

Lemma trim_not_blank (l : list ascii) :
  Exists (fun c => isStrWhiteSpaceChar c = false) l -> trim l <> [].
Proof.
  intros Hex Hnil.
  destruct (trim_decompose l) as (before & after & Hl & Hb & Ha).
  rewrite Hnil in Hl. cbn in Hl. rewrite Hl in Hex.
  apply Exists_exists in Hex as (c & Hin & Hc).
  pose proof (Forall_app_2 _ _ _ Hb Ha) as Hall.
  rewrite Forall_forall in Hall.
  rewrite (Hall c Hin) in Hc. discriminate.
Qed.

(** X9. For a name given in parts: when the two parts joined by a space
    hold a character that is not white space, the shown name is that text
    trimmed. It is not empty, it is the joined text with only white space
    taken away before and after it, and it neither starts nor ends with
    white space. When the parts hold nothing but white space (or are
    missing) the e-mail fallback is shown instead. *)
Theorem organizerName_parts (u : User) (firstPart lastPart : option string) :
  user_name u = Some (NameParts firstPart lastPart) ->
  let joined := default "" firstPart +:+ " " +:+ default "" lastPart in
  let shown := organizerName (Some u) in
  (Exists (fun c => isStrWhiteSpaceChar c = false)
          (list_ascii_of_string joined) ->
   shown = String_trim joined
   /\ shown <> ""
   /\ (exists before after,
         list_ascii_of_string joined
         = before ++ list_ascii_of_string shown ++ after
         /\ Forall (fun c => isStrWhiteSpaceChar c = true) before
         /\ Forall (fun c => isStrWhiteSpaceChar c = true) after)
   /\ exists c r,
        list_ascii_of_string shown = c :: r
        /\ isStrWhiteSpaceChar c = false
        /\ forall d, last (c :: r) = Some d ->
                     isStrWhiteSpaceChar d = false)
  /\ (Forall (fun c => isStrWhiteSpaceChar c = true)
             (list_ascii_of_string joined) ->
      shown = emailOrUnknown (Some u)).
Proof.
  intros Hn joined shown. subst shown.
  unfold organizerName. cbn [mbind option_bind].
  rewrite Hn. cbn zeta. fold joined. unfold String_trim.
  split.
  - intros Hex.
    pose proof (trim_not_blank _ Hex) as Hne.
    pose proof (trim_ends (list_ascii_of_string joined)) as Hends.
    destruct (trim_decompose (list_ascii_of_string joined))
      as (before & after & Hdec & Hb & Ha).
    destruct (trim (list_ascii_of_string joined)) as [|c r] eqn:Ht;
      [congruence|].
    cbn [string_of_list_ascii String.length Nat.eqb].
    change (String c (string_of_list_ascii r))
      with (string_of_list_ascii (c :: r)).
    rewrite list_ascii_of_string_of_list_ascii.
    split; [reflexivity|]. split; [discriminate|]. split.
    + now exists before, after.
    + exists c, r. destruct Hends as [Hc Hd]. now repeat split.
  - intros Hblank. now rewrite (trim_blank _ Hblank).
Qed.

Lemma organizerName_parts_witness :
  organizerName (Some ada) = "Ada Lovelace".
Proof.
  destruct (organizerName_parts ada (Some " Ada") (Some "Lovelace ") eq_refl)
    as [Hname _].
  destruct Hname as (Hshown & _).
  - apply Exists_exists. exists "A"%char. split; [|reflexivity].
    cbn. right. now left.
  - rewrite Hshown. vm_compute. reflexivity.
Defined.

(** *** Loading *)

(** X10. A load that is not cancelled always takes the spinner away,
    whether the stored session, the event or the organizer fails or not,
    and shows at most one alert. *)
Theorem load_clears_loading (info : option string)
    (parseId : string -> Completion (option string))
    (fetchEvent : Completion (option Event))
    (fetchUser : string -> Completion (option User)) (sc : Screen) :
  let out := load info parseId fetchEvent fetchUser NotCancelled sc in
  loading (fst out) = false
  /\ (snd out = [] \/ snd out = [loadFailed]).
Proof.
  unfold load.
  destruct info as [[|c r]|]; try destruct (parseId _) as [uid|];
    destruct fetchEvent as [[e|]|]; cbn; auto;
    destruct (organizerId e) as [|x y]; cbn; auto;
    destruct (fetchUser _) as [user|]; cbn; auto.
Qed.

(** X11. When the event arrives and the request for its organizer fails,
    the event is on display all the same, the organizer stays as it was,
    the failure is alerted and the spinner goes. *)
Theorem load_event_without_organizer (info : option string)
    (parseId : string -> Completion (option string))
    (fetchUser : string -> Completion (option User)) (sc : Screen)
    (e : Event) :
  organizerId e <> "" ->
  fetchUser (organizerId e) = Throws ->
  (forall text, info = Some text -> parseId text <> Throws) ->
  let out := load info parseId (Normal (Some e)) fetchUser NotCancelled sc in
  event (fst out) = Some e
  /\ organizer (fst out) = organizer sc
  /\ loading (fst out) = false
  /\ snd out = [loadFailed].
Proof.
  intros Hid Huser Hparse. unfold load.
  remember (organizerId e) as oid eqn:Hoid.
  destruct oid as [|x y]; [congruence|].
  destruct info as [[|c r]|].
  - cbn. rewrite Huser. now cbn.
  - specialize (Hparse _ eq_refl).
    destruct (parseId (String c r)) as [uid|]; [|congruence].
    cbn. rewrite Huser. now cbn.
  - cbn. rewrite Huser. now cbn.
Qed.

Lemma load_event_without_organizer_witness :
  event (fst (load None (fun _ => Throws) (Normal (Some Sample.cleanup))
                (fun _ => Throws) NotCancelled mounted))
  = Some Sample.cleanup.
Proof.
  apply (load_event_without_organizer None (fun _ => Throws)
           (fun _ => Throws) mounted Sample.cleanup).
  - discriminate.
  - reflexivity.
  - discriminate.
Defined.

(** X12. A stored session text that does not parse stops the load before
    the event is asked for: event, organizer and user id stay as they
    were and the failure is alerted, whatever the requests would have
    answered. *)
Theorem load_unreadable_session (text : string)
    (parseId : string -> Completion (option string))
    (fetchEvent : Completion (option Event))
    (fetchUser : string -> Completion (option User))
    (c : Cancelled) (sc : Screen) :
  text <> "" ->
  parseId text = Throws ->
  let out := load (Some text) parseId fetchEvent fetchUser c sc in
  event (fst out) = event sc
  /\ organizer (fst out) = organizer sc
  /\ userId (fst out) = userId sc
  /\ snd out = [loadFailed].
Proof.
  intros Ht Hp. unfold load. destruct text as [|x y]; [congruence|].
  rewrite Hp. unfold finish. now destruct (cancelledAfterUserInfo c).
Qed.

Lemma load_unreadable_session_witness :
  snd (load (Some "{id:") (fun _ => Throws) (Normal (Some Sample.cleanup))
         (fun _ => Normal (Some ada)) NotCancelled mounted)
  = [loadFailed].
Proof.
  apply (load_unreadable_session "{id:" (fun _ => Throws)
           (Normal (Some Sample.cleanup)) (fun _ => Normal (Some ada))
           NotCancelled mounted).
  - discriminate.
  - reflexivity.
Defined.

(** X13. A load cancelled before the event has arrived (the screen was
    left) never sets the event or the organizer; and unless it had already
    ended on an unreadable session, it leaves the spinner as it was. *)
Theorem load_cancelled_early (info : option string)
    (parseId : string -> Completion (option string))
    (fetchEvent : Completion (option Event))
    (fetchUser : string -> Completion (option User))
    (c : Cancelled) (sc : Screen) :
  cancelledAfterEvent c = true ->
  let out := load info parseId fetchEvent fetchUser c sc in
  event (fst out) = event sc
  /\ organizer (fst out) = organizer sc
  /\ ((forall text, info = Some text -> parseId text <> Throws) ->
      loading (fst out) = loading sc).
Proof.
  intros Hc. unfold load.
  assert (Hfin : forall s, finish (cancelledAfterEvent c) s = s)
    by (intros s; now rewrite Hc).
  destruct info as [[|x y]|].
  - destruct fetchEvent as [[e|]|]; rewrite ?Hc, ?Hfin; now cbn.
  - destruct (parseId (String x y)) as [uid|] eqn:Hp.
    + destruct fetchEvent as [[e|]|]; rewrite ?Hc, ?Hfin; now cbn.
    + cbn [fst]. unfold finish.
      destruct (cancelledAfterUserInfo c); cbn; repeat split;
        intros Hparse; now destruct (Hparse _ eq_refl).
  - destruct fetchEvent as [[e|]|]; rewrite ?Hc, ?Hfin; now cbn.
Qed.

Lemma load_cancelled_early_witness :
  event (fst (load None (fun _ => Throws) (Normal (Some Sample.cleanup))
                (fun _ => Normal (Some ada)) DuringEvent mounted))
  = None.
Proof.
  apply (load_cancelled_early None (fun _ => Throws)
           (Normal (Some Sample.cleanup)) (fun _ => Normal (Some ada))
           DuringEvent mounted).
  reflexivity.
Defined.


End DetailsScreenFacts.

(** ** The event list: what a fetch leaves behind *)
Module EventsMapFacts.
Import Js EventsMap Sample Terms Fixtures EventsMapSpec.

Section WithPlatform.
Context {platform : Platform}.

(** The four ways [fetchEvents] ends. *)
Lemma fetchEvents_outcomes (netInfo : NetInfoResult) (response : Fetched)
    (now : Z) (w : World) :
  let fallback := disconnected netInfo || connectedPathThrows netInfo response in
  let w0 := if disconnected netInfo then w else emit Warn w in
  let noData := if disconnected netInfo then offlineAlert else unableAlert in
  (fallback = false
   /\ exists data,
        netInfo = NetInfoState (Some true)
        /\ response = Resolves true (BodyArray data)
        /\ fetchEvents netInfo response now w
           = Done (setItem EVENTS_CACHE_KEY
                     (JSON_stringify (List.filter (isFutureEvent now) data))
                     (setEvents (List.filter (isFutureEvent now) data) w)))
  \/ (fallback = true
      /\ exists cached l,
           storage w !! EVENTS_CACHE_KEY = Some cached /\ cached <> ""
           /\ JSON_parse cached = Some l
           /\ fetchEvents netInfo response now w = Done (setEvents l w0))
  \/ (fallback = true
      /\ (storage w !! EVENTS_CACHE_KEY = None
          \/ storage w !! EVENTS_CACHE_KEY = Some "")
      /\ fetchEvents netInfo response now w
         = Done (emit (ShowAlert noData) w0))
  \/ (fallback = true
      /\ exists cached,
           storage w !! EVENTS_CACHE_KEY = Some cached /\ cached <> ""
           /\ JSON_parse cached = None
           /\ fetchEvents netInfo response now w = Thrown (emit Warn w)).
Proof.
  intros fallback w0 noData.
  destruct (fallback) eqn:Hfb; subst fallback.
  - right.
    assert (Hshow : forall miss v,
      storage v = storage w ->
      (exists cached l, storage w !! EVENTS_CACHE_KEY = Some cached
         /\ cached <> "" /\ JSON_parse cached = Some l
         /\ showCached miss v = Done (setEvents l v))
      \/ ((storage w !! EVENTS_CACHE_KEY = None
           \/ storage w !! EVENTS_CACHE_KEY = Some "")
          /\ showCached miss v = Done (emit (ShowAlert miss) v))
      \/ (exists cached, storage w !! EVENTS_CACHE_KEY = Some cached
            /\ cached <> "" /\ JSON_parse cached = None
            /\ showCached miss v = Thrown v)).
    { intros miss v Hv. unfold showCached. rewrite Hv.
      destruct (storage w !! EVENTS_CACHE_KEY) as [[|c r]|] eqn:Hc; cbn.
      - right; left. split; [now right | reflexivity].
      - destruct (JSON_parse (String c r)) as [l|] eqn:Hl.
        + left. exists (String c r), l. now repeat split.
        + right; right. exists (String c r). now repeat split.
      - right; left. split; [now left | reflexivity]. }
    destruct (fetchEvents_fallback_cases netInfo response now w Hfb)
      as [[Hd Htry]|[Ht Hfetch]].
    + subst w0 noData. rewrite Hd. unfold fetchEvents. rewrite Htry.
      destruct (Hshow offlineAlert w eq_refl)
        as [(cached & l & Hc & Hne & Hl & ->)
           |[(Hc & ->)|(cached & Hc & Hne & Hl & Hthrow)]].
      * left. split; [reflexivity|]. now exists cached, l.
      * right; left. now repeat split.
      * right; right. split; [reflexivity|]. exists cached.
        rewrite Hthrow.
        destruct (Hshow unableAlert (emit Warn w) eq_refl)
          as [(c2 & l2 & Hc2 & _ & Hl2 & _)
             |[([Hc2|Hc2] & _)|(c2 & _ & _ & _ & ->)]];
          try congruence.
        now repeat split.
    + assert (Hd : disconnected netInfo = false).
      { destruct netInfo as [|[[|]|]]; cbn in *; congruence. }
      subst w0 noData. rewrite Hd, Hfetch.
      destruct (Hshow unableAlert (emit Warn w) eq_refl)
        as [(cached & l & Hc & Hne & Hl & ->)
           |[(Hc & ->)|(cached & Hc & Hne & Hl & ->)]].
      * left. split; [reflexivity|]. now exists cached, l.
      * right; left. now repeat split.
      * right; right. split; [reflexivity|]. now exists cached.
  - left. split; [reflexivity|].
    destruct netInfo as [|[[|]|]]; cbn in Hfb; try discriminate.
    destruct response as [|[|] [|data|]]; cbn in Hfb; try discriminate.
    now exists data.
Qed.

(** X15. However a fetch goes, it leaves every key of the store other
    than the cache key as it was (the stored session among them). *)
Theorem fetchEvents_other_keys (netInfo : NetInfoResult) (response : Fetched)
    (now : Z) (w : World) (k : string) :
  k <> EVENTS_CACHE_KEY ->
  storage (worldOf (fetchEvents netInfo response now w)) !! k
  = storage w !! k.
Proof.
  intros Hk.
  destruct (fetchEvents_outcomes netInfo response now w)
    as [(_ & data & _ & _ & ->)
       |[(_ & cached & l & _ & _ & _ & ->)
        |[(_ & _ & ->)|(_ & cached & _ & _ & _ & ->)]]];
    cbn; try now destruct (disconnected netInfo).
  now apply lookup_insert_ne.
Qed.

(** X17. A fetch that falls back on the cache does not look at the clock:
    the cached events are shown as cached, also those whose date has
    passed since. *)
Theorem fetchEvents_fallback_ignores_clock (netInfo : NetInfoResult)
    (response : Fetched) (now now' : Z) (w : World) :
  disconnected netInfo || connectedPathThrows netInfo response = true ->
  fetchEvents netInfo response now w = fetchEvents netInfo response now' w.
Proof.
  intros Hfb. unfold fetchEvents.
  destruct netInfo as [|[[|]|]]; cbn in *; try reflexivity.
  destruct response as [|[|] [|data|]]; cbn in *; try reflexivity.
  discriminate.
Qed.

(** X18. Of two successful fetches the later one wins: what the earlier
    one showed and cached is replaced, not merged. *)
Theorem fetchEvents_last_success_wins (data1 data2 : list Event)
    (now1 now2 : Z) (w : World) :
  let ok data := Resolves true (BodyArray data) in
  fetchEvents (NetInfoState (Some true)) (ok data2) now2
    (worldOf (fetchEvents (NetInfoState (Some true)) (ok data1) now1 w))
  = fetchEvents (NetInfoState (Some true)) (ok data2) now2 w.
Proof.
  cbn. unfold setItem, setEvents. cbn. f_equal. f_equal.
  apply insert_insert_eq.
Qed.



(** X21. What a successful fetch showed is what a later fetch without
    connection shows, unchanged and without touching the store, when the
    JSON text written for that list is not empty and parses back to it. *)
Theorem cache_read_back (data : list Event) (now now' : Z) (w : World) :
  let shown := List.filter (isFutureEvent now) data in
  JSON_stringify shown <> "" ->
  JSON_parse (JSON_stringify shown) = Some shown ->
  let w1 := worldOf (fetchEvents (NetInfoState (Some true))
                       (Resolves true (BodyArray data)) now w) in
  events w1 = shown
  /\ fetchEvents (NetInfoState (Some false)) Rejects now' w1 = Done w1.
Proof.
  intros shown Hne Hparse w1. split; [reflexivity|].
  assert (Hw1 : w1 = setItem EVENTS_CACHE_KEY (JSON_stringify shown)
                       (setEvents shown w)) by reflexivity.
  assert (Hlook : storage w1 !! EVENTS_CACHE_KEY = Some (JSON_stringify shown)).
  { rewrite Hw1. apply lookup_insert_eq. }
  clearbody w1.
  unfold fetchEvents. cbn [tryBlock]. unfold showCached. rewrite Hlook.
  destruct (JSON_stringify shown) as [|c r] eqn:Htext; [congruence|].
  cbn. rewrite Hparse. rewrite Hw1. reflexivity.
Qed.

End WithPlatform.

Lemma fetchEvents_other_keys_witness :
  storage (worldOf (@fetchEvents sample (NetInfoState (Some true))
                      (Resolves true (BodyArray [at_ms "2000"])) 1000
                      (mkWorld [] {[ "userInfo" := "session" ]} [])))
    !! "userInfo"
  = Some "session".
Proof.
  rewrite (@fetchEvents_other_keys sample) by discriminate.
  apply lookup_singleton_eq.
Defined.

Lemma fetchEvents_fallback_ignores_clock_witness :
  @fetchEvents sample (NetInfoState (Some false)) Rejects 1000 cachedWorld
  = @fetchEvents sample (NetInfoState (Some false)) Rejects 9000 cachedWorld.
Proof.
  apply (@fetchEvents_fallback_ignores_clock sample). reflexivity.
Defined.


Lemma cache_read_back_witness :
  let w1 := worldOf (@fetchEvents sample (NetInfoState (Some true))
                       (Resolves true (BodyArray [at_ms "2000"; at_ms "500"]))
                       1000 (mkWorld [] ∅ [])) in
  @fetchEvents sample (NetInfoState (Some false)) Rejects 7000 w1 = Done w1.
Proof.
  apply (@cache_read_back sample [at_ms "2000"; at_ms "500"] 1000 7000
           (mkWorld [] ∅ [])).
  - discriminate.
  - reflexivity.
Defined.

End EventsMapFacts.

(** ** From the map to a saved event *)
Module AddEventFacts.
Import Js AddEventForm AddEventFormPicker Sample Terms Fixtures AddEventFormSpec.

(** X22. Next leaves the map exactly when the map has been pressed, and
    hands the form the coordinate pressed last; the form so opened holds
    that position and is not valid yet, every field being empty. *)
Theorem onNext_after_presses (presses : list Position) (now : Z) :
  let position :=
    fold_left (fun pos c => AddEventMap.onPressMap c pos) presses None in
  AddEventMap.onNext position = last presses
  /\ (AddEventMap.onNext position = None <-> presses = [])
  /\ (forall p, AddEventMap.onNext position = Some p ->
        AddEventForm.position (AddEventMap.openForm (Some p)) = Some p
        /\ allValid now (AddEventMap.openForm (Some p)) = false).
Proof.
  intros position.
  assert (Hfold : forall start,
            fold_left (fun pos c => AddEventMap.onPressMap c pos) presses start
            = match last presses with Some p => Some p | None => start end).
  { induction presses as [|c rest IH]; intros start; [reflexivity|].
    cbn [fold_left]. rewrite IH. unfold AddEventMap.onPressMap.
    destruct rest as [|d rest']; [reflexivity|].
    change (last (c :: d :: rest')) with (last (d :: rest')).
    destruct (last (d :: rest')) eqn:Hl; [reflexivity|].
    apply last_None in Hl. discriminate. }
  assert (Hnext : AddEventMap.onNext position = last presses).
  { subst position. rewrite Hfold. unfold AddEventMap.onNext.
    now destruct (last presses). }
  split; [exact Hnext|]. split.
  - rewrite Hnext. apply last_None.
  - intros p _. split; reflexivity.
Qed.

(** *** File names *)

Lemma split_pieces_clean (isSep : ascii -> bool) (s : string) :
  Forall (fun piece =>
            Forall (fun c => isSep c = false) (list_ascii_of_string piece))
         (split isSep s).
Proof.
  induction s as [|c r IH]; cbn.
  - repeat constructor.
  - destruct (isSep c) eqn:Hc.
    + constructor; [constructor | exact IH].
    + destruct (split isSep r) as [|piece pieces]; [repeat constructor; exact Hc|].
      inversion IH as [|? ? Hpiece Hpieces]; subst.
      constructor; [|assumption]. cbn. now constructor.
Qed.

Lemma split_clean (isSep : ascii -> bool) (s : string) :
  Forall (fun c => isSep c = false) (list_ascii_of_string s) ->
  split isSep s = [s].
Proof.
  induction s as [|c r IH]; cbn; [reflexivity|].
  intros H. inversion H as [|? ? Hc Hr]; subst.
  rewrite Hc, (IH Hr). reflexivity.
Qed.

(** X23. The file name read off a locator is never empty and holds no
    slash or backslash. *)
Theorem getFileNameFromUri_clean (uri : string) :
  getFileNameFromUri uri <> ""
  /\ Forall (fun c => isSlash c = false)
            (list_ascii_of_string (getFileNameFromUri uri)).
Proof.
  unfold getFileNameFromUri, pop.
  destruct (last (split isSlash uri)) as [[|c r]|] eqn:Hlast.
  - split; [discriminate|]. vm_compute. repeat constructor.
  - split; [discriminate|].
    pose proof (split_pieces_clean isSlash uri) as Hclean.
    rewrite Forall_forall in Hclean. apply (Hclean (String c r)).
    now apply last_Some_elem_of.
  - split; [discriminate|]. vm_compute. repeat constructor.
Qed.

(** X24. For a locator that ends in a separator followed by a name with
    no separator in it, the file name is that name; a locator that ends in
    a separator, and the empty locator, give the default name. *)
Theorem getFileNameFromUri_last_segment (dir name : string) (sep : ascii) :
  isSlash sep = true ->
  Forall (fun c => isSlash c = false) (list_ascii_of_string name) ->
  getFileNameFromUri (dir +:+ String sep name)
  = match name with
    | EmptyString => "selected_image.jpg"
    | String _ _ => name
    end.
Proof.
  intros Hsep Hname. unfold getFileNameFromUri, pop.
  rewrite (split_app isSlash sep dir name Hsep), (split_clean isSlash name Hname).
  rewrite last_snoc. now destruct name.
Qed.

Lemma getFileNameFromUri_last_segment_witness :
  getFileNameFromUri "file:///photos/a.jpg" = "a.jpg".
Proof.
  apply (getFileNameFromUri_last_segment "file:///photos" "a.jpg" "/").
  - reflexivity.
  - vm_compute. repeat constructor.
Defined.

(** *** Rejected input *)

(** X29. A text of white space only, the empty text included, is not a
    valid number of volunteers: [Number] reads it as zero. *)
Theorem isVolunteersValid_blank (s : string) :
  Forall (fun c => isStrWhiteSpaceChar c = true) (list_ascii_of_string s) ->
  Number s = S754_zero false /\ isVolunteersValid s = false.
Proof.
  intros Hblank.
  assert (HN : Number s = S754_zero false).
  { unfold Number.
    now rewrite (DetailsScreenFacts.trim_blank _ Hblank). }
  split; [exact HN|]. unfold isVolunteersValid. now rewrite HN.
Qed.

Lemma isVolunteersValid_blank_witness :
  isVolunteersValid "   " = false.
Proof.
  apply (isVolunteersValid_blank "   "). vm_compute. repeat constructor.
Defined.

(** *** Picking an image *)

Section WithPlatform.
Context {platform : Platform}.

(** X25. Picking an image never touches the text fields, the date or the
    position, and always previews the picked asset. It ends in one of two
    ways: silently, with the non-empty URL the upload returned for the
    encoded content and with file information; or with the one alert that
    the upload failed, with no image URL and no file information, so that
    the draft is not valid, even if an earlier image had made it so. *)
Theorem handleImagePicked_outcome
    (getInfoAsync : string -> Completion (option Z))
    (readAsStringAsync : string -> Completion string)
    (uploadImage : string -> Completion (option string))
    (asset : Asset) (st : State) (now : Z) :
  let out := handleImagePicked getInfoAsync readAsStringAsync uploadImage
               asset st in
  (position (fst out), name (fst out), about (fst out), volNeeded (fst out),
   date (fst out))
  = (position st, name st, about st, volNeeded st, date st)
  /\ imagePreviewUri (fst out) = Some (uri asset)
  /\ ((snd out = []
       /\ exists payload url,
            encodeContent readAsStringAsync asset = Normal payload
            /\ uploadImage payload = Normal (Some url)
            /\ url <> ""
            /\ imageUrl (fst out) = Some url
            /\ imageMeta (fst out) <> None)
      \/ (snd out = [uploadFailed]
          /\ imageUrl (fst out) = None
          /\ imageMeta (fst out) = None
          /\ allValid now (fst out) = false)).
Proof.
  unfold handleImagePicked.
  assert (Hinvalid : forall s', imageUrl s' = None -> allValid now s' = false).
  { intros s' H. unfold allValid. rewrite H. cbn.
    now rewrite andb_false_r. }
  destruct (getInfoAsync (uri asset)) as [info|]; cbn.
  - destruct (encodeContent readAsStringAsync asset) as [payload|] eqn:He; cbn.
    + destruct (uploadImage payload) as [[[|c r]|]|] eqn:Hu; cbn;
        (split; [reflexivity|]); (split; [reflexivity|]);
        try (right; repeat split; now apply Hinvalid).
      left. split; [reflexivity|]. exists payload, (String c r).
      repeat split; try assumption; discriminate.
    + split; [reflexivity|]. split; [reflexivity|].
      right. repeat split. now apply Hinvalid.
  - split; [reflexivity|]. split; [reflexivity|].
    right. repeat split. now apply Hinvalid.
Qed.

(** X26. Without both permissions nothing is launched and nothing changes:
    the one thing that happens is the alert asking for them. With both,
    the picker is launched, and a cancelled pick or one without assets
    changes nothing and says nothing. *)
Theorem pickImage_no_ops (cam lib : string) (r : PickerResult)
    (getInfoAsync : string -> Completion (option Z))
    (readAsStringAsync : string -> Completion string)
    (uploadImage : string -> Completion (option string)) (st : State) :
  let out := pickImage cam lib r getInfoAsync readAsStringAsync uploadImage
               st in
  (cam <> "granted" \/ lib <> "granted" ->
   out = (st, [PickAlert permissionsRequired]))
  /\ (cam = "granted" -> lib = "granted" ->
      canceled r = true \/ assets r = None \/ assets r = Some [] ->
      out = (st, [Launch]))
  /\ (cam = "granted" -> lib = "granted" ->
      forall asset rest,
        canceled r = false -> assets r = Some (asset :: rest) ->
        fst out
        = fst (handleImagePicked getInfoAsync readAsStringAsync uploadImage
                 asset st)
        /\ hd_error (snd out) = Some Launch).
Proof.
  unfold pickImage, ensurePermissions. split; [|split].
  - intros Hdenied.
    destruct (String.eqb_spec cam "granted") as [->|_];
      destruct (String.eqb_spec lib "granted") as [->|_]; cbn;
      try reflexivity.
    destruct Hdenied; congruence.
  - intros -> -> Hnone. cbn.
    destruct Hnone as [->|[Hn|Hn]]; [reflexivity| |];
      rewrite Hn; now destruct (canceled r).
  - intros -> -> asset rest Hc Ha. cbn. rewrite Hc, Ha.
    now destruct (handleImagePicked _ _ _ asset st).
Qed.

(** *** Saving *)

(** X27. Save sends a POST exactly when the draft is valid, and leaves
    for the map exactly when, in addition, the POST was answered with a
    success status; a rejected request or an error status shows the
    failure alert and stays on the form. *)
Theorem onSave_effects (now : Z) (post : FetchOutcome) (st : State) :
  let fx := onSave now post st in
  ((exists url body, In (Post url body) fx) <-> allValid now st = true)
  /\ (In (Navigate "EventsMap") fx
      <-> allValid now st = true /\ post = FetchResolves true)
  /\ (forall screen, In (Navigate screen) fx -> screen = "EventsMap")
  /\ (allValid now st = true -> post <> FetchResolves true ->
      In (ShowAlert saveFailed) fx /\ ~ In (ShowAlert saveSuccess) fx)
  /\ (allValid now st = false -> fx = [ShowAlert validationAlert]).
Proof.
  intros fx. subst fx.
  destruct (allValid now st) eqn:Hv.
  - pose proof Hv as Hr.
    apply allValid_rules in Hr as (_ & _ & _ & (d & Hd & _) & _).
    unfold onSave. rewrite Hd, Hv. cbn [negb].
    split; [split; [reflexivity|]; intros _;
            destruct post as [|[|]]; eexists _, _; left; reflexivity|].
    split; [|split; [|split]].
    + destruct post as [|[|]]; cbn; split;
        try (intros [H|[H|[H|[]]]]; discriminate);
        try (intros [H|[H|[]]]; discriminate);
        try (intros [_ H]; discriminate); auto.
    + intros screen.
      destruct post as [|[|]]; cbn;
        try (intros [H|[H|[]]]; discriminate).
      intros [H|[H|[H|[]]]]; try discriminate. now injection H as <-.
    + intros _ Hpost. destruct post as [|[|]]; cbn; [|congruence|].
      * split; [auto|]. intros [H|[H|[]]]; discriminate.
      * split; [auto|]. intros [H|[H|[]]]; discriminate.
    + discriminate.
  - rewrite (onSave_invalid now post st Hv). cbn.
    split; [split; [|discriminate]; intros (url & body & [H|[]]); discriminate|].
    split; [split; [intros [H|[]] | intros [H _]]; discriminate|].
    split; [intros screen [H|[]]; discriminate|].
    split; [discriminate | reflexivity].
Qed.

(** X28. Every event a valid draft posts is well formed as far as the
    form checks: a name that is not empty, a description of at most 300
    characters, a number of volunteers that is a positive integer, an
    image URL that is not empty, and the position the form was opened
    with; it goes to the events endpoint. *)
Theorem onSave_posts_checked_fields (now : Z) (post : FetchOutcome)
    (st : State) (url : string) (body : NewEvent) :
  In (Post url body) (onSave now post st) ->
  url = API_BASE +:+ "/events"
  /\ post_name body <> ""
  /\ (String.length (post_description body) <= 300)%nat
  /\ (exists n, 0 < n /\ numberIs (post_volunteersNeeded body) n)
  /\ (exists image, image <> "" /\ post_imageUrl body = Some image)
  /\ post_position body = position st
  /\ (exists d, date st = Some d /\ now <= d
                /\ post_dateTime body = Date_toISOString d).
Proof.
  intros Hin.
  destruct (allValid now st) eqn:Hv.
  - pose proof Hv as Hr.
    apply allValid_rules
      in Hr as (Hn & Ha & Hvol & (d & Hd & Hle) & (image & Hi & Hne)).
    unfold onSave in Hin. rewrite Hd, Hv in Hin. cbn [negb] in Hin.
    assert (Hb : url = API_BASE +:+ "/events"
                 /\ body = mkNewEvent (name st) (about st) "ImAdmin"
                             (Date_toISOString d) (imageUrl st) (position st)
                             (Number (volNeeded st)) []).
    { destruct post as [|[|]]; cbn in Hin;
        repeat (destruct Hin as [Hin|Hin];
                [try discriminate; injection Hin as <- <-; now split|]);
        destruct Hin. }
    destruct Hb as [-> ->]. cbn.
    split; [reflexivity|]. split; [assumption|]. split; [assumption|].
    split; [now apply valid_number_iff|].
    split; [now exists image|]. split; [reflexivity|]. now exists d.
  - rewrite (onSave_invalid now post st Hv) in Hin.
    destruct Hin as [Hin|[]]. discriminate.
Qed.

End WithPlatform.

Lemma onSave_posts_checked_fields_witness :
  exists n, 0 < n /\ numberIs (Number "4") n.
Proof.
  apply (@onSave_posts_checked_fields sample 1000 (FetchResolves true)
           draftWithoutPosition "http://localhost:3333/events"
           (mkNewEvent "Park day" "Bring gloves" "ImAdmin"
              "1970-01-01T00:00:00.000Z" (Some "https://img.example/a.jpg")
              None (Number "4") [])).
  left. reflexivity.
Defined.

End AddEventFacts.

(** ** The event list when the store can fail *)
Module EventsMapStoreFacts.
Import Js EventsMap Sample Terms Fixtures.

Section WithPlatform.
Context {platform : Platform}.

(** With a store that does not fail, the two models of [fetchEvents]
    are one. *)
Lemma fetchEvents_reliable (netInfo : NetInfoResult) (response : Fetched)
    (now : Z) (w : World) :
  EventsMapStore.fetchEvents EventsMapStore.reliable netInfo response now w
  = fetchEvents netInfo response now w.
Proof.
  unfold EventsMapStore.fetchEvents, fetchEvents.
  destruct netInfo as [|[[|]|]]; try reflexivity.
Qed.

(** The three ways the cache read goes. *)
Lemma showCached_cases (readRejects : bool) (miss : Alert) (v : World) :
  (EventsMapStore.showCached readRejects miss v = Thrown v
   /\ (readRejects = true \/ EventsMapStore.unreadable (storage v)))
  \/ (exists l, EventsMapStore.showCached readRejects miss v
                = Done (setEvents l v))
  \/ (EventsMapStore.showCached readRejects miss v
      = Done (emit (ShowAlert miss) v)
      /\ EventsMapStore.holdsNoText (storage v)).
Proof.
  unfold EventsMapStore.showCached, showCached,
    EventsMapStore.unreadable, EventsMapStore.holdsNoText.
  destruct readRejects; [left; split; [reflexivity | now left]|].
  destruct (storage v !! EVENTS_CACHE_KEY) as [[|c r]|] eqn:Hc; cbn.
  - right; right. split; [reflexivity | now right].
  - destruct (JSON_parse (String c r)) as [l|] eqn:Hl.
    + right; left. now exists l.
    + left. split; [reflexivity|]. right. exists (String c r).
      now repeat split.
  - right; right. split; [reflexivity | now left].
Qed.

Lemma showCached_thrown (readRejects : bool) (miss : Alert) (v w' : World) :
  EventsMapStore.showCached readRejects miss v = Thrown w'
  <-> w' = v
      /\ (readRejects = true \/ EventsMapStore.unreadable (storage v)).
Proof.
  split.
  - intros Hthrown.
    destruct (showCached_cases readRejects miss v)
      as [[Heq Hwhy]|[(l & Heq)|[Heq _]]]; rewrite Heq in Hthrown;
      try discriminate.
    injection Hthrown as <-. now split.
  - intros [-> Hwhy].
    destruct (showCached_cases readRejects miss v)
      as [[Heq _]|[(l & Heq)|[Heq Hnone]]]; [exact Heq| |].
    + exfalso. unfold EventsMapStore.showCached, showCached in Heq.
      destruct Hwhy as [Hr|(cached & Hc & Hne & Hp)];
        [rewrite Hr in Heq; discriminate|].
      destruct readRejects; [discriminate|].
      rewrite Hc in Heq. destruct cached; [congruence|]. cbn in Heq.
      rewrite Hp in Heq. discriminate.
    + exfalso. unfold EventsMapStore.showCached in Heq.
      destruct Hwhy as [Hr|(cached & Hc & Hne & _)];
        [rewrite Hr in Heq; discriminate|].
      destruct Hnone as [Hn|Hn]; rewrite Hn in Hc; congruence.
Qed.

(** When the [try] block throws, and the store it leaves to the handler. *)
Lemma tryBlock_thrown (store : EventsMapStore.StoreRun)
    (netInfo : NetInfoResult) (response : Fetched) (now : Z) (w : World)
    (seen : gmap string string) :
  (exists wh, EventsMapStore.tryBlock store netInfo response now w = Thrown wh
              /\ storage wh = seen)
  <-> (connectedPathThrows netInfo response = true /\ seen = storage w)
      \/ (exists data,
            netInfo = NetInfoState (Some true)
            /\ response = Resolves true (BodyArray data)
            /\ EventsMapStore.write store = EventsMapStore.WriteRejects seen)
      \/ (disconnected netInfo = true /\ seen = storage w
          /\ (EventsMapStore.offlineReadRejects store = true
              \/ EventsMapStore.unreadable seen)).
Proof.
  assert (Hoff : (exists wh,
                    EventsMapStore.showCached
                      (EventsMapStore.offlineReadRejects store) offlineAlert w
                    = Thrown wh /\ storage wh = seen)
                 <-> seen = storage w
                     /\ (EventsMapStore.offlineReadRejects store = true
                         \/ EventsMapStore.unreadable seen)).
  { split.
    - intros (wh & Hthrown & <-).
      apply showCached_thrown in Hthrown as [-> Hwhy]. now split.
    - intros [-> Hwhy]. exists w. split; [|reflexivity].
      now apply showCached_thrown. }
  unfold EventsMapStore.tryBlock.
  destruct netInfo as [|[[|]|]]; cbn [connectedPathThrows disconnected].
  - split.
    + intros (wh & [= <-] & <-). left. now split.
    + intros [[_ ->]|[(d & [=] & _)|([=] & _)]].
      exists w. now split.
  - destruct response as [|[|] [|data|]];
      try (split;
           [intros (wh & [= <-] & <-); left; now split
           |intros [[_ ->]|[(d & _ & [=] & _)|([=] & _)]];
            exists w; now split]).
    destruct (EventsMapStore.write store) as [|leftover] eqn:Hw; cbn.
    + split.
      * intros (wh & [=] & _).
      * intros [[[=] _]|[(d & _ & _ & [=])|([=] & _)]].
    + split.
      * intros (wh & [= <-] & <-). right; left. now exists data.
      * intros [[[=] _]|[(d & _ & _ & [= <-])|([=] & _)]].
        eexists. split; reflexivity.
  - rewrite Hoff. split.
    + intros [-> Hwhy]. right; right. now repeat split.
    + intros [[[=] _]|[(d & [=] & _)|(_ & -> & Hwhy)]]. now split.
  - rewrite Hoff. split.
    + intros [-> Hwhy]. right; right. now repeat split.
    + intros [[[=] _]|[(d & [=] & _)|(_ & -> & Hwhy)]]. now split.
Qed.

(** X16. The promise of a fetch rejects exactly when the handler runs and
    its own cache read fails: the read rejects, or the cached text it
    finds is not empty and does not parse. The handler runs when the
    connected path throws before anything is shown (it then finds the
    store as it was), when the cache write after a successful request
    rejects (it finds what that write left), and when the offline branch
    throws on its read or on the parse. With a store that never fails
    this is: the call falls back on a cached text that does not parse. *)
Theorem fetchEvents_rejects_exactly (store : EventsMapStore.StoreRun)
    (netInfo : NetInfoResult) (response : Fetched) (now : Z) (w : World) :
  ((exists w',
      EventsMapStore.fetchEvents store netInfo response now w = Thrown w')
   <-> exists seen,
         ((connectedPathThrows netInfo response = true /\ seen = storage w)
          \/ (exists data,
                netInfo = NetInfoState (Some true)
                /\ response = Resolves true (BodyArray data)
                /\ EventsMapStore.write store
                   = EventsMapStore.WriteRejects seen)
          \/ (disconnected netInfo = true /\ seen = storage w
              /\ (EventsMapStore.offlineReadRejects store = true
                  \/ EventsMapStore.unreadable seen)))
         /\ (EventsMapStore.handlerReadRejects store = true
             \/ EventsMapStore.unreadable seen))
  /\ ((exists w',
         EventsMapStore.fetchEvents EventsMapStore.reliable netInfo response
           now w = Thrown w')
      <-> disconnected netInfo || connectedPathThrows netInfo response = true
          /\ EventsMapStore.unreadable (storage w)).
Proof.
  assert (Hgen : forall store',
    (exists w',
       EventsMapStore.fetchEvents store' netInfo response now w = Thrown w')
    <-> exists seen,
          (exists wh,
             EventsMapStore.tryBlock store' netInfo response now w = Thrown wh
             /\ storage wh = seen)
          /\ (EventsMapStore.handlerReadRejects store' = true
              \/ EventsMapStore.unreadable seen)).
  { intros store'. unfold EventsMapStore.fetchEvents. split.
    - intros (w' & Hthrown).
      destruct (EventsMapStore.tryBlock store' netInfo response now w)
        as [wd|wh]; [discriminate|].
      apply showCached_thrown in Hthrown as [_ Hwhy].
      exists (storage wh). split; [now exists wh | exact Hwhy].
    - intros (seen & (wh & -> & <-) & Hwhy).
      exists (emit Warn wh). now apply showCached_thrown. }
  split.
  - rewrite Hgen. split.
    + intros (seen & Hrun & Hwhy). exists seen.
      split; [exact (proj1 (tryBlock_thrown _ _ _ _ _ _) Hrun) | exact Hwhy].
    + intros (seen & Hrun & Hwhy). exists seen.
      split; [exact (proj2 (tryBlock_thrown _ _ _ _ _ _) Hrun) | exact Hwhy].
  - rewrite Hgen. split.
    + intros (seen & Hrun & Hwhy).
      apply tryBlock_thrown in Hrun.
      destruct Hwhy as [[=]|Hun].
      destruct Hrun as [[Ht ->]|[(d & _ & _ & [=])|(Hd & -> & _)]].
      * split; [|exact Hun]. rewrite Ht. apply orb_true_r.
      * split; [|exact Hun]. now rewrite Hd.
    + intros [Hfb Hun]. exists (storage w). split; [|now right].
      apply tryBlock_thrown. apply orb_true_iff in Hfb as [Hd|Ht].
      * right; right. split; [exact Hd|]. split; [reflexivity | now right].
      * left. now split.
Qed.

(** X19. A fetch shows at most one alert, and only when the cache key
    holds no text in the store it reads. The events on screen then stay
    as they were and the store too, with one exception: when the alert
    follows a rejected cache write, the freshly fetched list stays on
    screen. A fetch that writes the cache and a fallback on a cached list
    show no alert. *)
Theorem fetchEvents_alerts_once (store : EventsMapStore.StoreRun)
    (netInfo : NetInfoResult) (response : Fetched) (now : Z) (w : World) :
  let out :=
    worldOf (EventsMapStore.fetchEvents store netInfo response now w) in
  let shown := List.filter (fun e => match e with
                                     | ShowAlert _ => true
                                     | Warn => false
                                     end)
                 (drop (length (log w)) (log out)) in
  shown = []
  \/ ((exists a, shown = [ShowAlert a])
      /\ ((events out = events w /\ storage out = storage w
           /\ EventsMapStore.holdsNoText (storage w))
          \/ exists data leftover,
               netInfo = NetInfoState (Some true)
               /\ response = Resolves true (BodyArray data)
               /\ EventsMapStore.write store
                  = EventsMapStore.WriteRejects leftover
               /\ EventsMapStore.holdsNoText leftover
               /\ events out = List.filter (isFutureEvent now) data
               /\ storage out = leftover)).
Proof.
  intros out shown. subst out shown.
  assert (Hdrop : forall (m : list Effect), drop (length (log w)) (log w ++ m) = m).
  { intros m. now rewrite drop_app_length. }
  assert (Hnil : drop (length (log w)) (log w) = []) by apply drop_all.
  assert (Hhandler : forall wh,
    log wh = log w ->
    let out := worldOf (EventsMapStore.showCached
                          (EventsMapStore.handlerReadRejects store)
                          unableAlert (emit Warn wh)) in
    (List.filter (fun e => match e with ShowAlert _ => true | Warn => false end)
       (drop (length (log w)) (log out)) = [])
    \/ ((exists a, List.filter (fun e => match e with
                                         | ShowAlert _ => true
                                         | Warn => false
                                         end)
                     (drop (length (log w)) (log out)) = [ShowAlert a])
        /\ events out = events wh /\ storage out = storage wh
        /\ EventsMapStore.holdsNoText (storage wh))).
  { intros wh Hlog out. subst out.
    destruct (showCached_cases (EventsMapStore.handlerReadRejects store)
                unableAlert (emit Warn wh))
      as [[-> _]|[(l & ->)|[-> Hnone]]]; cbn; rewrite Hlog.
    - left. now rewrite Hdrop.
    - left. now rewrite Hdrop.
    - right. rewrite <- app_assoc, Hdrop. cbn. split; [eauto|]. now repeat split. }
  unfold EventsMapStore.fetchEvents, EventsMapStore.tryBlock.
  destruct netInfo as [|[[|]|]].
  - destruct (Hhandler w eq_refl) as [H|(Ha & He & Hs & Hn)];
      [now left | right; split; [exact Ha | now left]].
  - destruct response as [|[|] [|data|]];
      try (destruct (Hhandler w eq_refl) as [H|(Ha & He & Hs & Hn)];
           [now left | right; split; [exact Ha | now left]]).
    destruct (EventsMapStore.write store) as [|leftover] eqn:Hw.
    + left. cbn. now rewrite Hnil.
    + destruct (Hhandler
                  (mkWorld (List.filter (isFutureEvent now) data) leftover (log w))
                  eq_refl) as [H|(Ha & He & Hs & Hn)];
        [now left|].
      right. split; [exact Ha|]. right. exists data, leftover.
      now repeat split.
  - destruct (showCached_cases (EventsMapStore.offlineReadRejects store)
                offlineAlert w) as [[-> _]|[(l & ->)|[-> Hnone]]].
    + destruct (Hhandler w eq_refl) as [H|(Ha & He & Hs & Hn)];
        [now left | right; split; [exact Ha | now left]].
    + left. cbn. now rewrite Hnil.
    + right. cbn. rewrite Hdrop. cbn. split; [eauto|]. left. now repeat split.
  - destruct (showCached_cases (EventsMapStore.offlineReadRejects store)
                offlineAlert w) as [[-> _]|[(l & ->)|[-> Hnone]]].
    + destruct (Hhandler w eq_refl) as [H|(Ha & He & Hs & Hn)];
        [now left | right; split; [exact Ha | now left]].
    + left. cbn. now rewrite Hnil.
    + right. cbn. rewrite Hdrop. cbn. split; [eauto|]. left. now repeat split.
Qed.

End WithPlatform.
End EventsMapStoreFacts.
